(** * Matching service: the match-record coordinator

    A shallow embedding of [backend/matching-service/src/matchingService.ts].

    The Prisma tables are lists in table order, [findFirst] returns the
    first row that satisfies the filter, and the primary key [recordId] is
    handed out by an auto-increment counter.  Socket.IO emissions and
    delayed RabbitMQ messages are appended to logs carried in the state.
    Each handler is modelled as one uninterrupted run (the awaits of one
    handler are not interleaved with another handler). *)

From Stdlib Require Import String ZArith List Bool Lia Permutation.
Import ListNotations.

Local Open Scope string_scope.
Local Open Scope Z_scope.
Local Open Scope list_scope.

(** ** Data model *)

(** Modelled from the spec: the Prisma schema (schema.prisma) is not part of
    the sources.  The columns are the ones the handlers read and write;
    [matchedUserId] and [questionId] are nullable, and the flags that
    [create] leaves out default to [false]. *)
Record MatchRecord := mkMatchRecord {
  recordId : Z;
  userId : string;
  topic : string;
  difficulty : string;
  socketId : string;
  roomNumber : string;
  matched : bool;
  matchedUserId : option string;
  isPending : bool;
  isConfirmed : bool;
  isArchived : bool;
  questionId : option Z
}.

(** Modelled from the spec: the session-history table of the same schema,
    with the columns [handleMatchingConfirm] writes. *)
Module SessionHistory.
Record t := mk {
  roomNumber : string;
  questionId : Z;
  isOngoing : bool;
  userOneId : string;
  userTwoId : string
}.
End SessionHistory.

(** The payload of a queue message of type "match" ([userRequest]). *)
Module Req.
Record t := mk {
  userId : string;
  topic : string;
  difficulty : string;
  socketId : string
}.
End Req.

(** What [io.to(socket).emit(event, payload)] sends. *)
Inductive Payload :=
| Text (s : string)
| Message (message : string)
| Matched (matchedWith : string) (roomNumber : string) (questionId : Z).

Record Emit := mkEmit {
  to : string;
  event : string;
  payload : Payload
}.

(** [sendDelayedMessage({recordId, type}, delay)]; the record id travels as
    its decimal string and is read back with [Number], so the model keeps
    the number.  The log holds the messages the handlers below schedule
    ([sendConfirmDelayedTimeoutMessage]); the request timeout that
    [handleMatchingRequest] schedules for every request (type "timeout",
    30000 ms) goes out before the request reaches these handlers and is not
    part of this log. *)
Record Delayed := mkDelayed {
  delayedRecordId : Z;
  delayedType : string;
  delay : Z
}.

Definition CONFIRM_DELAY_TIME : Z := 10000.

Record State := mkState {
  matchRecord : list MatchRecord;
  nextRecordId : Z;
  sessionHistory : list SessionHistory.t;
  emitted : list Emit;
  delayed : list Delayed
}.

Definition initialState : State := mkState [] 1 [] [] [].

(** The results of the two outside calls of [handleUserRequest]:
    [uuidv4()] and [fetchRandomQuestion(difficulty, topic)] (the id of the
    question, [None] when the lookup yields nothing). *)
Record Env := mkEnv {
  uuidv4 : string;
  fetchRandomQuestion : string -> string -> option Z
}.

(** ** Field updates ([data: { ... }]) *)

Definition set_socketId (s : string) (r : MatchRecord) : MatchRecord :=
  mkMatchRecord (recordId r) (userId r) (topic r) (difficulty r) s
    (roomNumber r) (matched r) (matchedUserId r) (isPending r)
    (isConfirmed r) (isArchived r) (questionId r).

Definition set_isArchived (r : MatchRecord) : MatchRecord :=
  mkMatchRecord (recordId r) (userId r) (topic r) (difficulty r) (socketId r)
    (roomNumber r) (matched r) (matchedUserId r) (isPending r)
    (isConfirmed r) true (questionId r).

Definition set_isConfirmed (r : MatchRecord) : MatchRecord :=
  mkMatchRecord (recordId r) (userId r) (topic r) (difficulty r) (socketId r)
    (roomNumber r) (matched r) (matchedUserId r) (isPending r)
    true (isArchived r) (questionId r).

(** [data: { matched: true, matchedUserId: userId, isPending: true }] *)
Definition set_matched (u : string) (r : MatchRecord) : MatchRecord :=
  mkMatchRecord (recordId r) (userId r) (topic r) (difficulty r) (socketId r)
    (roomNumber r) true (Some u) true
    (isConfirmed r) (isArchived r) (questionId r).

(** ** The store and the two channels, as a state monad *)

Definition M (A : Type) : Type := State -> A * State.

Definition ret {A} (a : A) : M A := fun s => (a, s).
Definition bind {A B} (m : M A) (k : A -> M B) : M B :=
  fun s => let (a, s') := m s in k a s'.

Declare Scope m_scope.
Delimit Scope m_scope with M.
Notation "x <- m ;; k" := (bind m (fun x => k))
  (at level 61, m at next level, right associativity) : m_scope.
Notation "m ;; k" := (bind m (fun _ => k))
  (at level 61, right associativity) : m_scope.

Definition run {A} (m : M A) (s : State) : State := snd (m s).

Definition with_matchRecord (f : list MatchRecord -> list MatchRecord)
    (s : State) : State :=
  mkState (f (matchRecord s)) (nextRecordId s) (sessionHistory s)
    (emitted s) (delayed s).

Definition hasId (id : Z) (r : MatchRecord) : bool := recordId r =? id.

Definition updateWhere (p : MatchRecord -> bool)
    (f : MatchRecord -> MatchRecord) (l : list MatchRecord) :=
  map (fun r => if p r then f r else r) l.

Module prisma.

(** [prisma.matchRecord.findFirst({ where })] *)
Definition findFirst (cond : MatchRecord -> bool) : M (option MatchRecord) :=
  fun s => (find cond (matchRecord s), s).

(** [prisma.matchRecord.findUnique({ where: { recordId } })] *)
Definition findUnique (id : Z) : M (option MatchRecord) :=
  fun s => (find (hasId id) (matchRecord s), s).

(** [prisma.matchRecord.update({ where: { recordId }, data })].  Prisma
    raises when no row has the id; the handlers only pass the id of a row
    they have just read. *)
Definition update (id : Z) (data : MatchRecord -> MatchRecord) : M unit :=
  fun s => (tt, with_matchRecord (updateWhere (hasId id) data) s).

(** [prisma.matchRecord.updateMany({ where, data })] *)
Definition updateMany (cond : MatchRecord -> bool)
    (data : MatchRecord -> MatchRecord) : M unit :=
  fun s => (tt, with_matchRecord (updateWhere cond data) s).

(** [prisma.matchRecord.delete({ where: { recordId } })] *)
Definition delete (id : Z) : M unit :=
  fun s => (tt, with_matchRecord (filter (fun r => negb (hasId id r))) s).

(** [prisma.matchRecord.create({ data })]: the row gets the next id of
    the auto-increment key; the created row is returned. *)
Definition create (data : Z -> MatchRecord) : M MatchRecord :=
  fun s =>
    let r := data (nextRecordId s) in
    (r, mkState (matchRecord s ++ [r]) (nextRecordId s + 1)
          (sessionHistory s) (emitted s) (delayed s)).

(** [prisma.sessionHistory.findMany({ where })] *)
Definition sessionHistory_findMany (cond : SessionHistory.t -> bool)
  : M (list SessionHistory.t) :=
  fun s => (filter cond (sessionHistory s), s).

(** [prisma.sessionHistory.create({ data })] *)
Definition sessionHistory_create (h : SessionHistory.t) : M unit :=
  fun s => (tt, mkState (matchRecord s) (nextRecordId s)
                  (sessionHistory s ++ [h]) (emitted s) (delayed s)).

End prisma.

(** [io.to(socket).emit(event, payload)] *)
Definition emit (socket event : string) (p : Payload) : M unit :=
  fun s => (tt, mkState (matchRecord s) (nextRecordId s) (sessionHistory s)
                  (emitted s ++ [mkEmit socket event p]) (delayed s)).

Definition sendDelayedMessage (id : Z) (type : string) (d : Z) : M unit :=
  fun s => (tt, mkState (matchRecord s) (nextRecordId s) (sessionHistory s)
                  (emitted s) (delayed s ++ [mkDelayed id type d])).

Definition sendConfirmDelayedTimeoutMessage (recordId : Z) : M unit :=
  sendDelayedMessage recordId "confirm_timeout" CONFIRM_DELAY_TIME.

(** ** Filters *)

Definition optEq (o : option string) (u : string) : bool :=
  match o with
  | Some v => String.eqb v u
  | None => false
  end.

(** [userId: { notIn: excludedUserIds }] *)
Definition notIn (u : string) (l : list string) : bool :=
  negb (existsb (String.eqb u) l).

(** [{ userId, isPending: false, isArchived: false }] *)
Definition waitingOf (u : string) (r : MatchRecord) : bool :=
  String.eqb (userId r) u && negb (isPending r) && negb (isArchived r).

(** [{ userId, isPending: true, isArchived: false }] *)
Definition pendingOf (u : string) (r : MatchRecord) : bool :=
  String.eqb (userId r) u && isPending r && negb (isArchived r).

(** [{ matchedUserId: userId, isPending: true, isArchived: false }] *)
Definition pendingWith (u : string) (r : MatchRecord) : bool :=
  optEq (matchedUserId r) u && isPending r && negb (isArchived r).

(** [{ userId, isPending: false, isArchived: false, socketId }] *)
Definition waitingOn (u sock : string) (r : MatchRecord) : bool :=
  String.eqb (userId r) u && negb (isPending r) && negb (isArchived r)
  && String.eqb (socketId r) sock.

(** The four [where] clauses of the candidate search. *)
Definition attempt1 (t d : string) (excludedUserIds : list string)
    (r : MatchRecord) : bool :=
  String.eqb (topic r) t && String.eqb (difficulty r) d
  && negb (matched r) && negb (isArchived r)
  && notIn (userId r) excludedUserIds.

Definition attempt2 (t : string) (excludedUserIds : list string)
    (r : MatchRecord) : bool :=
  String.eqb (topic r) t
  && negb (matched r) && negb (isArchived r)
  && notIn (userId r) excludedUserIds.

Definition attempt3 (t d u : string) (r : MatchRecord) : bool :=
  String.eqb (topic r) t && String.eqb (difficulty r) d
  && negb (matched r) && negb (isArchived r)
  && negb (String.eqb (userId r) u).

Definition attempt4 (t u : string) (r : MatchRecord) : bool :=
  String.eqb (topic r) t
  && negb (matched r) && negb (isArchived r)
  && negb (String.eqb (userId r) u).

(** ** The handlers *)

Definition other_declined_text : string :=
  "Match not confirmed. Please try again.".

Definition previousUserIdsOf (u : string)
    (previousMatches : list SessionHistory.t) : list string :=
  flat_map (fun m => if String.eqb (SessionHistory.userOneId m) u
                     then [SessionHistory.userTwoId m]
                     else [SessionHistory.userOneId m]) previousMatches.

(** The row the requester gets when a match was found. *)
Definition matchedRow (u t d sock room : string) (other : string) (q : Z)
    (id : Z) : MatchRecord :=
  mkMatchRecord id u t d sock room true (Some other) true false false (Some q).

(** The row the requester gets when nobody is waiting. *)
Definition waitingRow (u t d sock room : string) (id : Z) : MatchRecord :=
  mkMatchRecord id u t d sock room false None false false false None.

(** Lines 74-152: the previous partners, the exclusion list and the four
    attempts; each later attempt runs only while [existingMatch] is null.
    The search only reads. *)
Definition searchExistingMatch (userRequest : Req.t)
  : M (option MatchRecord) :=
  let u := Req.userId userRequest in
  let t := Req.topic userRequest in
  let d := Req.difficulty userRequest in
  (previousMatches <-
     prisma.sessionHistory_findMany
       (fun m => String.eqb (SessionHistory.userOneId m) u
                 || String.eqb (SessionHistory.userTwoId m) u) ;;
   let previousUserIds := previousUserIdsOf u previousMatches in
   let excludedUserIds := u :: previousUserIds in
   existingMatch <- prisma.findFirst (attempt1 t d excludedUserIds) ;;
   existingMatch <-
     match existingMatch with
     | None => prisma.findFirst (attempt2 t excludedUserIds)
     | Some _ => ret existingMatch
     end ;;
   existingMatch <-
     match existingMatch with
     | None => prisma.findFirst (attempt3 t d u)
     | Some _ => ret existingMatch
     end ;;
   match existingMatch with
   | None => prisma.findFirst (attempt4 t u)
   | Some _ => ret existingMatch
   end)%M.

(** Lines 154-221: what follows the search. *)
Definition settleExistingMatch (env : Env) (userRequest : Req.t)
    (existingMatch : option MatchRecord) : M unit :=
  let u := Req.userId userRequest in
  let t := Req.topic userRequest in
  let d := Req.difficulty userRequest in
  let sock := Req.socketId userRequest in
  (match existingMatch with
   | Some existingMatch =>
       let roomNumber := uuidv4 env in
       let question := fetchRandomQuestion env d t in
       match question with
       | None =>
           emit sock "question_error"
             (Message "No Question found for the selected topic") ;;
           emit (socketId existingMatch) "question_error"
             (Message "No Question found for the selected topic") ;;
           prisma.delete (recordId existingMatch)
       | Some questionId =>
           prisma.update (recordId existingMatch) (set_matched u) ;;
           current <-
             prisma.create
               (matchedRow u t d sock roomNumber (userId existingMatch)
                  questionId) ;;
           emit sock "matched"
             (Matched (userId existingMatch) roomNumber questionId) ;;
           emit (socketId existingMatch) "matched"
             (Matched u roomNumber questionId) ;;
           sendConfirmDelayedTimeoutMessage (recordId current) ;;
           sendConfirmDelayedTimeoutMessage (recordId existingMatch)
       end
   | None =>
       let roomNumber := uuidv4 env in
       _ <- prisma.create (waitingRow u t d sock roomNumber) ;;
       ret tt
   end)%M.

Definition handleUserRequest (env : Env) (userRequest : Req.t) : M unit :=
  let u := Req.userId userRequest in
  let sock := Req.socketId userRequest in
  (user <- prisma.findFirst (waitingOf u) ;;
   match user with
   | Some user =>
       let pastSocketId := socketId user in
       if negb (String.eqb pastSocketId sock) then
         emit pastSocketId "duplicate socket"
           (Text "New connection detected for the same user. Please close the current page") ;;
         prisma.update (recordId user) (set_socketId sock)
       else ret tt
   | None =>
       existingMatch <- searchExistingMatch userRequest ;;
       settleExistingMatch env userRequest existingMatch
   end)%M.

(** [a ?? b ?? 0] *)
Definition coalesce (a b : option Z) : Z :=
  match a with
  | Some x => x
  | None => match b with Some y => y | None => 0 end
  end.

Definition handleMatchingConfirm (u : string) : M unit :=
  (userRecord <- prisma.findFirst (pendingOf u) ;;
   matchedRecord <- prisma.findFirst (pendingWith u) ;;
   match matchedRecord, userRecord with
   | Some matchedRecord, Some userRecord =>
       if isConfirmed userRecord then ret tt
       else
         prisma.update (recordId userRecord) set_isConfirmed ;;
         if isConfirmed matchedRecord then
           prisma.update (recordId matchedRecord) set_isArchived ;;
           prisma.update (recordId userRecord) set_isArchived ;;
           prisma.sessionHistory_create
             (SessionHistory.mk (roomNumber matchedRecord)
                (coalesce (questionId matchedRecord) (questionId userRecord))
                true (userId userRecord) (userId matchedRecord)) ;;
           emit (socketId userRecord) "matching_success"
             (Text "Match confirmed. Proceeding to collaboration service.") ;;
           emit (socketId matchedRecord) "matching_success"
             (Text "Match confirmed. Proceeding to collaboration service.")
         else
           emit (socketId matchedRecord) "other_accepted"
             (Text "Other user confirmed match. Please confirm.")
   | _, _ =>
       match matchedRecord with
       | Some matchedRecord =>
           prisma.update (recordId matchedRecord) set_isArchived ;;
           emit (socketId matchedRecord) "other_declined"
             (Text other_declined_text)
       | None => ret tt
       end ;;
       match userRecord with
       | Some userRecord =>
           prisma.update (recordId userRecord) set_isArchived ;;
           emit (socketId userRecord) "other_declined"
             (Text other_declined_text)
       | None => ret tt
       end
   end)%M.

Definition handleMatchingDecline (u : string) : M unit :=
  (userRecord <- prisma.findFirst (pendingOf u) ;;
   matchedRecord <- prisma.findFirst (pendingWith u) ;;
   match matchedRecord, userRecord with
   | Some matchedRecord, Some userRecord =>
       prisma.update (recordId userRecord) set_isArchived ;;
       emit (socketId matchedRecord) "other_declined"
         (Text other_declined_text) ;;
       prisma.update (recordId matchedRecord) set_isArchived ;;
       emit (socketId userRecord) "matching_fail" (Text other_declined_text) ;;
       emit (socketId matchedRecord) "matching_fail" (Text other_declined_text)
   | _, _ =>
       match matchedRecord with
       | Some matchedRecord =>
           prisma.update (recordId matchedRecord) set_isArchived ;;
           emit (socketId matchedRecord) "other_declined"
             (Text other_declined_text) ;;
           emit (socketId matchedRecord) "matching_fail"
             (Text other_declined_text)
       | None => ret tt
       end ;;
       match userRecord with
       | Some userRecord =>
           prisma.update (recordId userRecord) set_isArchived ;;
           emit (socketId userRecord) "other_declined"
             (Text other_declined_text) ;;
           emit (socketId userRecord) "matching_fail"
             (Text other_declined_text)
       | None => ret tt
       end
   end)%M.

Definition handleTimeout (u sock : string) : M unit :=
  (result <- prisma.findFirst (waitingOn u sock) ;;
   match result with
   | Some result =>
       (if negb (matched result) then
          emit sock "timeout" (Text "No match found. Please try again.")
        else ret tt) ;;
       prisma.update (recordId result) set_isArchived
   | None => ret tt
   end)%M.

Definition handleConfirmTimeout (recordIdInt : Z) : M unit :=
  (result <- prisma.findUnique recordIdInt ;;
   match result with
   | Some result =>
       if negb (isArchived result) then
         emit (socketId result) "matching_fail" (Text other_declined_text) ;;
         prisma.update recordIdInt set_isArchived
       else ret tt
   | None => ret tt
   end)%M.

(** [findMany] returns an array, which is never [null]: the [updateMany]
    always runs. *)
Definition handleDisconnected (sock : string) : M unit :=
  prisma.updateMany (fun r => String.eqb (socketId r) sock) set_isArchived.

(** ** Events and reachable states *)

Inductive Event :=
| UserRequest (env : Env) (userRequest : Req.t)
| MatchingConfirm (u : string)
| MatchingDecline (u : string)
| Timeout (u sock : string)
| ConfirmTimeout (recordIdInt : Z)
| Disconnected (sock : string).

Definition handle (e : Event) : M unit :=
  match e with
  | UserRequest env userRequest => handleUserRequest env userRequest
  | MatchingConfirm u => handleMatchingConfirm u
  | MatchingDecline u => handleMatchingDecline u
  | Timeout u sock => handleTimeout u sock
  | ConfirmTimeout id => handleConfirmTimeout id
  | Disconnected sock => handleDisconnected sock
  end.

Definition step (s : State) (e : Event) : State := run (handle e) s.

Definition runEvents (es : list Event) (s : State) : State :=
  fold_left step es s.

Inductive reachable : State -> Prop :=
| reachable_init : reachable initialState
| reachable_step s e : reachable s -> reachable (step s e).

(** ** Notions used in the statements *)

(** The candidate the search of [handleUserRequest] ends with. *)
Definition existingMatchOf (userRequest : Req.t) (s : State)
  : option MatchRecord :=
  fst (searchExistingMatch userRequest s).

(** [recordId] is the primary key of the table. *)
Definition uniqueIds (s : State) : Prop :=
  NoDup (map recordId (matchRecord s)).

Definition wellFormed (s : State) : Prop :=
  uniqueIds s /\ forall r, In r (matchRecord s) -> recordId r < nextRecordId s.

(** [{ userId, isArchived: false }] *)
Definition nonArchivedOf (u : string) (r : MatchRecord) : bool :=
  String.eqb (userId r) u && negb (isArchived r).

Definition countNonArchived (u : string) (s : State) : nat :=
  length (filter (nonArchivedOf u) (matchRecord s)).

Definition countWaiting (u : string) (s : State) : nat :=
  length (filter (waitingOf u) (matchRecord s)).

(** Two rows that name each other through [matchedUserId]/[userId]. *)
Definition counterparts (r c : MatchRecord) : Prop :=
  matchedUserId r = Some (userId c) /\ matchedUserId c = Some (userId r).

(** Every matched, non-archived row agrees with its counterpart on the room
    and on the question. *)
Definition pairsShareRoomAndQuestion (s : State) : Prop :=
  forall r c,
    In r (matchRecord s) -> In c (matchRecord s) ->
    matched r = true -> isArchived r = false -> counterparts r c ->
    roomNumber c = roomNumber r /\ questionId c = questionId r.

(** The table without the row of [r]'s key. *)
Definition forget (r : MatchRecord) (s : State) : State :=
  with_matchRecord (filter (fun x => negb (hasId (recordId r) x))) s.

(** Both rows of a pair confirmed and archived, the others untouched. *)
Definition archivePair (ra rb : MatchRecord) (r : MatchRecord) : MatchRecord :=
  if hasId (recordId ra) r || hasId (recordId rb) r
  then set_isArchived (set_isConfirmed r) else r.

Definition isEvent (name : string) (e : Emit) : bool :=
  String.eqb (event e) name.

Definition matching_success (sock : string) : Emit :=
  mkEmit sock "matching_success"
    (Text "Match confirmed. Proceeding to collaboration service.").

Definition other_accepted (sock : string) : Emit :=
  mkEmit sock "other_accepted"
    (Text "Other user confirmed match. Please confirm.").

Definition other_declined (sock : string) : Emit :=
  mkEmit sock "other_declined" (Text other_declined_text).

Definition matching_fail (sock : string) : Emit :=
  mkEmit sock "matching_fail" (Text other_declined_text).

Definition timeout (sock : string) : Emit :=
  mkEmit sock "timeout" (Text "No match found. Please try again.").

(** The session row written when the second of the two confirms. *)
Definition sessionOf (userRecord matchedRecord : MatchRecord)
  : SessionHistory.t :=
  SessionHistory.mk (roomNumber matchedRecord)
    (coalesce (questionId matchedRecord) (questionId userRecord))
    true (userId userRecord) (userId matchedRecord).

Definition question_error (sock : string) : Emit :=
  mkEmit sock "question_error"
    (Message "No Question found for the selected topic").

(** [c] is the first row of [l] with property [P]. *)
Definition firstWith (P : MatchRecord -> Prop) (l : list MatchRecord)
    (c : MatchRecord) : Prop :=
  exists l1 l2, l = l1 ++ c :: l2 /\ P c /\ forall x, In x l1 -> ~ P x.

(** *** The selection policy, in the words of the specification *)

Inductive Tier := Tier1 | Tier2 | Tier3 | Tier4.

Definition tierRank (k : Tier) : nat :=
  match k with Tier1 => 1 | Tier2 => 2 | Tier3 => 3 | Tier4 => 4 end.

(** [x] was the counterpart of [u] in session [h], [u] being user one or
    user two. *)
Definition counterpartIn (u x : string) (h : SessionHistory.t) : Prop :=
  (SessionHistory.userOneId h = u /\ SessionHistory.userTwoId h = x) \/
  (SessionHistory.userTwoId h = u /\ SessionHistory.userOneId h = x).

(** The exclusion set: the requester and every previous counterpart. *)
Definition specExcluded (s : State) (u x : string) : Prop :=
  x = u \/ exists h, In h (sessionHistory s) /\ counterpartIn u x h.

Definition specTier (s : State) (userRequest : Req.t) (k : Tier)
    (r : MatchRecord) : Prop :=
  isArchived r = false /\ matched r = false /\
  topic r = Req.topic userRequest /\
  match k with
  | Tier1 => difficulty r = Req.difficulty userRequest /\
             ~ specExcluded s (Req.userId userRequest) (userId r)
  | Tier2 => ~ specExcluded s (Req.userId userRequest) (userId r)
  | Tier3 => difficulty r = Req.difficulty userRequest /\
             userId r <> Req.userId userRequest
  | Tier4 => userId r <> Req.userId userRequest
  end.

(** Tier [k] yields [c] and every tier before it is empty. *)
Definition specSelects (s : State) (userRequest : Req.t) (k : Tier)
    (c : MatchRecord) : Prop :=
  firstWith (specTier s userRequest k) (matchRecord s) c /\
  forall j x, (tierRank j < tierRank k)%nat ->
              In x (matchRecord s) -> ~ specTier s userRequest j x.

Definition specNoCandidate (s : State) (userRequest : Req.t) : Prop :=
  forall k x, In x (matchRecord s) -> ~ specTier s userRequest k x.

(** The row [handleTimeout] looks for: of this user, on this socket,
    neither pending nor archived. *)
Definition waitingRowOn (u sock : string) (r : MatchRecord) : Prop :=
  userId r = u /\ socketId r = sock /\
  isPending r = false /\ isArchived r = false.

(** What the old socket of a user is told when the user asks again from
    another socket. *)
Definition duplicate_socket (sock : string) : Emit :=
  mkEmit sock "duplicate socket"
    (Text "New connection detected for the same user. Please close the current page").

(** [r'] is [r] with the socket replaced by [sock] and nothing else. *)
Definition sameButSocket (sock : string) (r r' : MatchRecord) : Prop :=
  socketId r' = sock /\
  recordId r' = recordId r /\ userId r' = userId r /\ topic r' = topic r /\
  difficulty r' = difficulty r /\ roomNumber r' = roomNumber r /\
  matched r' = matched r /\ matchedUserId r' = matchedUserId r /\
  isPending r' = isPending r /\ isConfirmed r' = isConfirmed r /\
  isArchived r' = isArchived r /\ questionId r' = questionId r.

(** No update of the handlers turns a row into a waiting row. *)
Definition neverStartsWaiting (f : MatchRecord -> MatchRecord) : Prop :=
  forall u r, waitingOf u (f r) = true -> waitingOf u r = true.

(** [a] and [b] hold pending, non-archived rows [ra] and [rb] that name
    each other. *)
Definition pendingPair (s : State) (a b : string) (ra rb : MatchRecord)
  : Prop :=
  In ra (matchRecord s) /\ In rb (matchRecord s) /\
  (userId ra = a /\ matchedUserId ra = Some b /\
   isPending ra = true /\ isArchived ra = false) /\
  (userId rb = b /\ matchedUserId rb = Some a /\
   isPending rb = true /\ isArchived rb = false).

(** No other pending, non-archived row belongs to [a] or [b] or names one
    of them. *)
Definition onlyPair (s : State) (a b : string) (ra rb : MatchRecord) : Prop :=
  forall r, In r (matchRecord s) ->
            isPending r = true -> isArchived r = false ->
            (userId r = a \/ matchedUserId r = Some b -> r = ra) /\
            (userId r = b \/ matchedUserId r = Some a -> r = rb).

(** The outcome of a double confirmation, from [s] to [s']: both rows
    confirmed and archived, one session row for the two users, and among
    the new emissions exactly two [matching_success], one per socket. *)
Definition doubleConfirmed (s s' : State) (a b : string)
    (ra rb : MatchRecord) : Prop :=
  matchRecord s' = map (archivePair ra rb) (matchRecord s) /\
  (forall r, In r (matchRecord s') ->
             recordId r = recordId ra \/ recordId r = recordId rb ->
             isArchived r = true) /\
  (exists h, sessionHistory s' = sessionHistory s ++ [h] /\
             ((SessionHistory.userOneId h = a /\
               SessionHistory.userTwoId h = b) \/
              (SessionHistory.userOneId h = b /\
               SessionHistory.userTwoId h = a))) /\
  (exists es, emitted s' = emitted s ++ es /\
              Permutation (filter (isEvent "matching_success") es)
                [matching_success (socketId ra);
                 matching_success (socketId rb)]) /\
  nextRecordId s' = nextRecordId s /\ delayed s' = delayed s.

(** The keys are distinct and below the auto-increment counter. *)
Definition keysBelow (ids : list Z) (n : Z) : Prop :=
  NoDup ids /\ forall id, In id ids -> id < n.

(** ** Scenarios *)

Module Scenario.

Definition env1 : Env := mkEnv "room-1" (fun _ _ => Some 7).
Definition env2 : Env := mkEnv "room-2" (fun _ _ => Some 7).
Definition env3 : Env := mkEnv "room-3" (fun _ _ => Some 9).
Definition envNoQuestion : Env := mkEnv "room-4" (fun _ _ => None).

Definition requestA : Req.t := Req.mk "A" "arrays" "easy" "socket-a".
Definition requestB : Req.t := Req.mk "B" "arrays" "easy" "socket-b".
Definition requestC : Req.t := Req.mk "C" "graphs" "easy" "socket-c".
(** A asks again, from a new tab and for another topic. *)
Definition requestA' : Req.t := Req.mk "A" "graphs" "easy" "socket-a2".
Definition requestA2 : Req.t := Req.mk "A" "arrays" "easy" "socket-a2".

(** A is waiting. *)
Definition waitingA : State :=
  runEvents [UserRequest env1 requestA] initialState.

(** A waited, B asked: the two are paired and pending. *)
Definition pairedAB : State :=
  runEvents [UserRequest env1 requestA; UserRequest env2 requestB]
    initialState.

(** C waits for graphs, A and B are paired on arrays, then A asks again
    for graphs and is paired with C as well. *)
Definition pairedTwice : State :=
  runEvents
    [UserRequest env1 requestC; UserRequest env1 requestA;
     UserRequest env2 requestB; UserRequest env3 requestA']
    initialState.

(** A and B are paired and pending, then A asks again. *)
Definition askedAgain : State :=
  step pairedAB (UserRequest env3 requestA2).

(** A waited and its request timed out: its row is archived. *)
Definition timedOutA : State :=
  runEvents [UserRequest env1 requestA; Timeout "A" "socket-a"]
    initialState.

(** B and C wait for the same topic and difficulty; A was paired with B
    in an earlier session. *)
Definition afterSession : State :=
  mkState
    [waitingRow "B" "arrays" "easy" "socket-b" "room-5" 1;
     waitingRow "C" "arrays" "easy" "socket-c" "room-6" 2]
    3 [SessionHistory.mk "room-0" 5 false "B" "A"] [] [].

(** Only the earlier partner B waits. *)
Definition onlyPartner : State :=
  mkState [waitingRow "B" "arrays" "hard" "socket-b" "room-5" 1]
    2 [SessionHistory.mk "room-0" 5 false "B" "A"] [] [].

End Scenario.

(** ** Notions for the properties of the remaining handlers *)

(** The columns no handler writes after the row is created. *)
Definition sameIdentity (r r' : MatchRecord) : Prop :=
  recordId r' = recordId r /\ userId r' = userId r /\ topic r' = topic r /\
  difficulty r' = difficulty r /\ roomNumber r' = roomNumber r /\
  questionId r' = questionId r.

(** No flag that is set in [r] is cleared in [r']. *)
Definition flagsKept (r r' : MatchRecord) : Prop :=
  (matched r = true -> matched r' = true) /\
  (isPending r = true -> isPending r' = true) /\
  (isConfirmed r = true -> isConfirmed r' = true) /\
  (isArchived r = true -> isArchived r' = true).

Definition evolves (r r' : MatchRecord) : Prop :=
  sameIdentity r r' /\ flagsKept r r'.

(** [r'] is [r] up to [isConfirmed] and [isArchived], which may only have
    been set. *)
Definition flagsOnly (r r' : MatchRecord) : Prop :=
  recordId r' = recordId r /\ userId r' = userId r /\ topic r' = topic r /\
  difficulty r' = difficulty r /\ socketId r' = socketId r /\
  roomNumber r' = roomNumber r /\ matched r' = matched r /\
  matchedUserId r' = matchedUserId r /\ isPending r' = isPending r /\
  questionId r' = questionId r /\
  (isConfirmed r = true -> isConfirmed r' = true) /\
  (isArchived r = true -> isArchived r' = true).

Definition isUserRequest (e : Event) : bool :=
  match e with UserRequest _ _ => true | _ => false end.

(** What the handlers keep true of every row. *)
Definition rowInv (r : MatchRecord) : Prop :=
  matched r = isPending r /\
  (isConfirmed r = true -> isPending r = true) /\
  (matched r = false -> matchedUserId r = None /\ questionId r = None) /\
  (matched r = true ->
   exists v, matchedUserId r = Some v /\ v <> userId r).


Definition raises (f : MatchRecord -> MatchRecord) : Prop :=
  forall r, evolves r (f r).

(** Every row of [l'] stems from a row of [l]. *)
Definition stemFrom (l l' : list MatchRecord) : Prop :=
  forall r', In r' l' -> exists r, In r l /\ evolves r r'.

Definition sessionInv (h : SessionHistory.t) : Prop :=
  SessionHistory.userOneId h <> SessionHistory.userTwoId h /\
  SessionHistory.isOngoing h = true.

(** Both rows of a pair archived, the others untouched. *)
Definition archiveBoth (ra rb : MatchRecord) (r : MatchRecord) : MatchRecord :=
  if hasId (recordId ra) r || hasId (recordId rb) r
  then set_isArchived r else r.

(** A delayed message is a confirm timeout, due after the confirm delay,
    for a row of the table that is matched. *)
Definition delayedInv (s : State) (d : Delayed) : Prop :=
  delayedType d = "confirm_timeout" /\ delay d = CONFIRM_DELAY_TIME /\
  exists r, In r (matchRecord s) /\ recordId r = delayedRecordId d /\
            matched r = true.

(** Every row of [l] has a successor in [l']. *)
Definition carried (l l' : list MatchRecord) : Prop :=
  forall r, In r l -> exists r', In r' l' /\ evolves r r'.

(** ** The session service of the frontend

    [SessionService] of the second part of the source file.  A promise is
    modelled by its outcome; the two services it calls and the HTTP client
    are inputs. *)

Module SessionService.

(** A settled promise; the value a rejection carries is never read. *)
Inductive Outcome (A : Type) : Type :=
| Resolved (a : A)
| Rejected.
Arguments Resolved {A} a.
Arguments Rejected {A}.

Definition andThen {A B} (m : Outcome A) (k : A -> Outcome B) : Outcome B :=
  match m with
  | Resolved a => k a
  | Rejected => Rejected
  end.

(** [Promise.all]: the values in order, or a rejection if any rejects. *)
Fixpoint promiseAll {A} (l : list (Outcome A)) : Outcome (list A) :=
  match l with
  | [] => Resolved []
  | m :: l' =>
      andThen m (fun a => andThen (promiseAll l') (fun r => Resolved (a :: r)))
  end.

Module SessionResponse.
Record t := mk {
  roomNumber : string;
  questionId : Z;
  otherUserId : string;
  isOngoing : option bool;
  submission : option string
}.
End SessionResponse.

Module SessionData.
Record t := mk {
  roomNumber : string;
  questionId : Z;
  questionTitle : string;
  otherUserId : string;
  otherUserName : string;
  isOngoing : option bool;
  submission : option string
}.
End SessionData.

(** What [UserService.getUser] resolves to: [User | Error]; of a user only
    [username] is read. *)
Inductive UserOrError :=
| User (username : option string)
| Error.

(** The collaborators: [QuestionService.getQuestion] (of its result only
    [title] is read), [UserService.getUser], and the sessions in the
    response of [client.get("/session-history")]. *)
Record Services := mkServices {
  getQuestion : Z -> Outcome (option string);
  getUser : string -> Outcome UserOrError;
  getSessions : string -> Outcome (list SessionResponse.t)
}.

(** [a ?? b] *)
Definition orElse (a : option string) (b : string) : string :=
  match a with Some x => x | None => b end.

(** The [try] block of [mapSessionResponseToSessionData]. *)
Definition tryMap (sv : Services) (session : SessionResponse.t)
  : Outcome SessionData.t :=
  andThen (getQuestion sv (SessionResponse.questionId session)) (fun title =>
  andThen (getUser sv (SessionResponse.otherUserId session)) (fun user =>
  match user with
  | Error => Rejected
  | User username =>
      Resolved
        (SessionData.mk
           (SessionResponse.roomNumber session)
           (SessionResponse.questionId session)
           (orElse title "Deleted question")
           (SessionResponse.otherUserId session)
           (orElse username "Deleted user")
           (SessionResponse.isOngoing session)
           (SessionResponse.submission session))
  end)).

Definition mapSessionResponseToSessionData (sv : Services)
    (session : SessionResponse.t) : Outcome SessionData.t :=
  match tryMap sv session with
  | Resolved d => Resolved d
  | Rejected =>
      Resolved
        (SessionData.mk
           (SessionResponse.roomNumber session)
           (SessionResponse.questionId session)
           "Error fetching question"
           (SessionResponse.otherUserId session)
           "Error fetching user"
           (SessionResponse.isOngoing session)
           (SessionResponse.submission session))
  end.

Definition getSessionHistory (sv : Services) (userId : string)
  : Outcome (list SessionData.t) :=
  andThen (getSessions sv userId) (fun sessions =>
  promiseAll (map (mapSessionResponseToSessionData sv) sessions)).

(** [d] shows the session [r]. *)
Definition shows (r : SessionResponse.t) (d : SessionData.t) : Prop :=
  SessionData.roomNumber d = SessionResponse.roomNumber r /\
  SessionData.questionId d = SessionResponse.questionId r /\
  SessionData.otherUserId d = SessionResponse.otherUserId r /\
  SessionData.isOngoing d = SessionResponse.isOngoing r /\
  SessionData.submission d = SessionResponse.submission r.

(** Both lookups succeeded and gave a user. *)
Definition lookedUp (sv : Services) (r : SessionResponse.t)
    (title username : option string) : Prop :=
  getQuestion sv (SessionResponse.questionId r) = Resolved title /\
  getUser sv (SessionResponse.otherUserId r) = Resolved (User username).

End SessionService.

(** ** Further scenarios *)

Module Cases.

(** A and B were paired and both confirmed. *)
Definition sessionAB : State :=
  runEvents [MatchingConfirm "A"; MatchingConfirm "B"] Scenario.pairedAB.

(** The rows of A and B in [Scenario.pairedAB]. *)
Definition rowA : MatchRecord :=
  set_matched "B" (waitingRow "A" "arrays" "easy" "socket-a" "room-1" 1).

Definition rowB : MatchRecord :=
  matchedRow "B" "arrays" "easy" "socket-b" "room-2" "A" 7 2.

(** A question service that knows question 7 only, a user service that
    knows user "B" only, and a history of two sessions. *)
Definition services : SessionService.Services :=
  SessionService.mkServices
    (fun q => if q =? 7 then SessionService.Resolved (Some "Two Sum")
              else SessionService.Rejected)
    (fun u => if String.eqb u "B"
              then SessionService.Resolved (SessionService.User (Some "bob"))
              else SessionService.Resolved SessionService.Error)
    (fun _ =>
       SessionService.Resolved
         [SessionService.SessionResponse.mk "room-2" 7 "B" (Some true) None;
          SessionService.SessionResponse.mk "room-9" 8 "C" None None]).

End Cases.

(** The same store with its rows in another order.  [findFirst] is called
    without [orderBy], so which of several matching rows it returns is not
    fixed and may differ from one call to the next. *)
Definition sameRows (s s' : State) : Prop :=
  Permutation (matchRecord s) (matchRecord s') /\
  nextRecordId s' = nextRecordId s /\
  sessionHistory s' = sessionHistory s /\
  emitted s' = emitted s /\
  delayed s' = delayed s.

Module Reordered.

(** [Scenario.pairedTwice] after a confirm of A. *)
Definition confirmedOnce : State :=
  step Scenario.pairedTwice (MatchingConfirm "A").

(** The same store, the row the confirm has updated (key 2) coming last. *)
Definition confirmedOnce' : State :=
  with_matchRecord
    (fun l => filter (fun r => negb (hasId 2 r)) l ++ filter (hasId 2) l)
    confirmedOnce.

End Reordered.

(** * Facts about the table *)

Section ListFacts.

Context {A : Type}.
Implicit Types (p q : A -> bool) (l : list A).

Lemma find_first p l c :
  find p l = Some c ->
  exists l1 l2, l = l1 ++ c :: l2 /\ p c = true /\
                forall x, In x l1 -> p x = false.
Proof.
  induction l as [|a l IH]; simpl; [discriminate|].
  destruct (p a) eqn:Ha.
  - intros [= ->]. exists [], l. simpl. repeat split; auto. contradiction.
  - intros H. destruct (IH H) as (l1 & l2 & -> & Hc & Hl1).
    exists (a :: l1), l2. repeat split; auto.
    intros x [<-|Hx]; auto.
Qed.

Lemma find_map_stable p (g : A -> A) l :
  (forall x, p (g x) = p x) ->
  find p (map g l) = option_map g (find p l).
Proof.
  intros Hg. induction l as [|a l IH]; simpl; [reflexivity|].
  rewrite Hg. destruct (p a); auto.
Qed.

Lemma find_filter p q l :
  (forall x, In x l -> p x = true -> q x = true) ->
  find p (filter q l) = find p l.
Proof.
  induction l as [|a l IH]; simpl; intros H; [reflexivity|].
  destruct (q a) eqn:Hq; simpl.
  - destruct (p a); auto.
  - destruct (p a) eqn:Hp.
    + rewrite (H a) in Hq; auto; discriminate.
    + auto.
Qed.

Lemma find_unique p l c :
  In c l -> p c = true ->
  (forall x, In x l -> p x = true -> x = c) ->
  find p l = Some c.
Proof.
  intros Hin Hc Hu. destruct (find p l) as [x|] eqn:E.
  - apply find_some in E as [Hx Hpx]. f_equal. auto.
  - rewrite (find_none _ _ E c Hin) in Hc. discriminate.
Qed.

Lemma find_all_false p l :
  (forall x, In x l -> p x = false) -> find p l = None.
Proof.
  intros H. destruct (find p l) as [x|] eqn:E; [|reflexivity].
  apply find_some in E as [Hx Hpx]. rewrite (H x Hx) in Hpx. discriminate.
Qed.

Lemma filter_map_stable p (g : A -> A) l :
  (forall x, p (g x) = p x) ->
  filter p (map g l) = map g (filter p l).
Proof.
  intros Hg. induction l as [|a l IH]; simpl; [reflexivity|].
  rewrite Hg. destruct (p a); simpl; congruence.
Qed.

Lemma filter_map_shrinks p (g : A -> A) l :
  (forall x, p (g x) = true -> p x = true) ->
  (length (filter p (map g l)) <= length (filter p l))%nat.
Proof.
  intros Hg. induction l as [|a l IH]; simpl; [lia|].
  destruct (p (g a)) eqn:E.
  - rewrite (Hg a E). simpl. lia.
  - destruct (p a); simpl; lia.
Qed.

Lemma filter_filter_shrinks p q l :
  (length (filter p (filter q l)) <= length (filter p l))%nat.
Proof.
  induction l as [|a l IH]; simpl; [lia|].
  destruct (q a); simpl; destruct (p a); simpl; lia.
Qed.

Lemma find_none_filter_nil p l : find p l = None -> filter p l = [].
Proof.
  induction l as [|a l IH]; simpl; [reflexivity|].
  destruct (p a); [discriminate|auto].
Qed.

End ListFacts.

Lemma updateWhere_ids p f l :
  (forall r, recordId (f r) = recordId r) ->
  map recordId (updateWhere p f l) = map recordId l.
Proof.
  intros Hf. unfold updateWhere. rewrite map_map. apply map_ext.
  intros r. destruct (p r); auto.
Qed.

Lemma set_isArchived_archived r :
  isArchived r = true -> set_isArchived r = r.
Proof. destruct r; simpl; intros ->; reflexivity. Qed.

Lemma set_isConfirmed_confirmed r :
  isConfirmed r = true -> set_isConfirmed r = r.
Proof. destruct r; simpl; intros ->; reflexivity. Qed.

(** With a primary key, an update by key replaces one row. *)
Lemma updateWhere_key f l1 r l2 :
  NoDup (map recordId (l1 ++ r :: l2)) ->
  updateWhere (hasId (recordId r)) f (l1 ++ r :: l2) = l1 ++ f r :: l2.
Proof.
  intros Hnd. unfold updateWhere. rewrite map_app. simpl.
  rewrite map_app in Hnd. simpl in Hnd.
  apply NoDup_remove in Hnd as [_ Hnotin].
  assert (Hother : forall l,
            (forall x, In x l ->
                       In (recordId x) (map recordId l1 ++ map recordId l2)) ->
            map (fun x => if hasId (recordId r) x then f x else x) l = l).
  { intros l Hl. rewrite <- (map_id l) at 2. apply map_ext_in.
    intros x Hx. unfold hasId.
    destruct (Z.eqb_spec (recordId x) (recordId r)) as [E|]; auto.
    exfalso. apply Hnotin. rewrite <- E. auto. }
  rewrite !Hother.
  - unfold hasId. rewrite Z.eqb_refl. reflexivity.
  - intros x Hx. apply in_or_app. right. now apply in_map.
  - intros x Hx. apply in_or_app. left. now apply in_map.
Qed.

Lemma key_determines_row (l : list MatchRecord) r r' :
  NoDup (map recordId l) -> In r l -> In r' l ->
  recordId r = recordId r' -> r = r'.
Proof.
  induction l as [|a l IH]; simpl; [contradiction|].
  intros Hnd [->|Hr] [->|Hr'] E; auto.
  - inversion Hnd as [|? ? Hn _]; subst. exfalso. apply Hn.
    rewrite E. now apply in_map.
  - inversion Hnd as [|? ? Hn _]; subst. exfalso. apply Hn.
    rewrite <- E. now apply in_map.
  - inversion Hnd; subst. auto.
Qed.

(** * The handlers, case by case *)

Lemma searchExistingMatch_reads userRequest s :
  searchExistingMatch userRequest s = (existingMatchOf userRequest s, s).
Proof.
  unfold existingMatchOf, searchExistingMatch, bind,
    prisma.sessionHistory_findMany, prisma.findFirst, ret.
  repeat match goal with
         | |- context [find ?p ?l] => destruct (find p l); simpl
         end; reflexivity.
Qed.

Lemma handleUserRequest_present env userRequest s user :
  find (waitingOf (Req.userId userRequest)) (matchRecord s) = Some user ->
  run (handleUserRequest env userRequest) s =
    if String.eqb (socketId user) (Req.socketId userRequest) then s
    else mkState
           (updateWhere (hasId (recordId user))
              (set_socketId (Req.socketId userRequest)) (matchRecord s))
           (nextRecordId s) (sessionHistory s)
           (emitted s ++ [duplicate_socket (socketId user)]) (delayed s).
Proof.
  intros H. unfold run, handleUserRequest, bind, prisma.findFirst.
  rewrite H. destruct (String.eqb _ _); reflexivity.
Qed.

Lemma handleUserRequest_absent env userRequest s :
  find (waitingOf (Req.userId userRequest)) (matchRecord s) = None ->
  run (handleUserRequest env userRequest) s =
    run (settleExistingMatch env userRequest (existingMatchOf userRequest s)) s.
Proof.
  intros H. unfold run, handleUserRequest, bind, prisma.findFirst.
  rewrite H, searchExistingMatch_reads. reflexivity.
Qed.

Lemma settle_no_question env userRequest s c :
  fetchRandomQuestion env (Req.difficulty userRequest) (Req.topic userRequest)
    = None ->
  run (settleExistingMatch env userRequest (Some c)) s =
    mkState (filter (fun r => negb (hasId (recordId c) r)) (matchRecord s))
      (nextRecordId s) (sessionHistory s)
      (emitted s ++ [question_error (Req.socketId userRequest)]
                 ++ [question_error (socketId c)])
      (delayed s).
Proof.
  intros H. unfold run, settleExistingMatch. rewrite H.
  unfold bind, emit, prisma.delete, with_matchRecord, question_error. simpl.
  now rewrite <- app_assoc.
Qed.

Lemma settle_paired env userRequest s c q :
  fetchRandomQuestion env (Req.difficulty userRequest) (Req.topic userRequest)
    = Some q ->
  run (settleExistingMatch env userRequest (Some c)) s =
    mkState
      (updateWhere (hasId (recordId c)) (set_matched (Req.userId userRequest))
         (matchRecord s)
       ++ [matchedRow (Req.userId userRequest) (Req.topic userRequest)
             (Req.difficulty userRequest) (Req.socketId userRequest)
             (uuidv4 env) (userId c) q (nextRecordId s)])
      (nextRecordId s + 1) (sessionHistory s)
      (emitted s
       ++ [mkEmit (Req.socketId userRequest) "matched"
             (Matched (userId c) (uuidv4 env) q)]
       ++ [mkEmit (socketId c) "matched"
             (Matched (Req.userId userRequest) (uuidv4 env) q)])
      (delayed s
       ++ [mkDelayed (nextRecordId s) "confirm_timeout" CONFIRM_DELAY_TIME]
       ++ [mkDelayed (recordId c) "confirm_timeout" CONFIRM_DELAY_TIME]).
Proof.
  intros H. unfold run, settleExistingMatch. rewrite H.
  unfold bind, emit, prisma.update, prisma.create, with_matchRecord,
    sendConfirmDelayedTimeoutMessage, sendDelayedMessage. simpl.
  now rewrite <- !app_assoc.
Qed.

Lemma settle_waiting env userRequest s :
  run (settleExistingMatch env userRequest None) s =
    mkState
      (matchRecord s
       ++ [waitingRow (Req.userId userRequest) (Req.topic userRequest)
             (Req.difficulty userRequest) (Req.socketId userRequest)
             (uuidv4 env) (nextRecordId s)])
      (nextRecordId s + 1) (sessionHistory s) (emitted s) (delayed s).
Proof. reflexivity. Qed.

Lemma handleTimeout_cases u sock s :
  run (handleTimeout u sock) s =
    match find (waitingOn u sock) (matchRecord s) with
    | Some result =>
        mkState
          (updateWhere (hasId (recordId result)) set_isArchived (matchRecord s))
          (nextRecordId s) (sessionHistory s)
          (emitted s ++
             if matched result then []
             else [mkEmit sock "timeout"
                     (Text "No match found. Please try again.")])
          (delayed s)
    | None => s
    end.
Proof.
  unfold run, handleTimeout, bind, prisma.findFirst. simpl.
  destruct (find _ _) as [r|]; [|reflexivity].
  destruct (matched r); simpl; [now rewrite app_nil_r | reflexivity].
Qed.

Lemma handleConfirmTimeout_cases id s :
  run (handleConfirmTimeout id) s =
    match find (hasId id) (matchRecord s) with
    | Some result =>
        if isArchived result then s
        else mkState
               (updateWhere (hasId id) set_isArchived (matchRecord s))
               (nextRecordId s) (sessionHistory s)
               (emitted s ++
                  [mkEmit (socketId result) "matching_fail"
                     (Text other_declined_text)])
               (delayed s)
    | None => s
    end.
Proof.
  unfold run, handleConfirmTimeout, bind, prisma.findUnique. simpl.
  destruct (find _ _) as [r|]; [|reflexivity].
  destruct (isArchived r); reflexivity.
Qed.

Lemma handleDisconnected_cases sock s :
  run (handleDisconnected sock) s =
    with_matchRecord
      (updateWhere (fun r => String.eqb (socketId r) sock) set_isArchived) s.
Proof. reflexivity. Qed.

Lemma handleMatchingConfirm_cases u s :
  run (handleMatchingConfirm u) s =
    match find (pendingWith u) (matchRecord s),
          find (pendingOf u) (matchRecord s) with
    | Some matchedRecord, Some userRecord =>
        if isConfirmed userRecord then s
        else if isConfirmed matchedRecord then
          mkState
            (updateWhere (hasId (recordId userRecord)) set_isArchived
               (updateWhere (hasId (recordId matchedRecord)) set_isArchived
                  (updateWhere (hasId (recordId userRecord)) set_isConfirmed
                     (matchRecord s))))
            (nextRecordId s)
            (sessionHistory s ++ [sessionOf userRecord matchedRecord])
            (emitted s ++ [matching_success (socketId userRecord)]
                       ++ [matching_success (socketId matchedRecord)])
            (delayed s)
        else
          mkState
            (updateWhere (hasId (recordId userRecord)) set_isConfirmed
               (matchRecord s))
            (nextRecordId s) (sessionHistory s)
            (emitted s ++ [other_accepted (socketId matchedRecord)])
            (delayed s)
    | Some matchedRecord, None =>
        mkState
          (updateWhere (hasId (recordId matchedRecord)) set_isArchived
             (matchRecord s))
          (nextRecordId s) (sessionHistory s)
          (emitted s ++ [other_declined (socketId matchedRecord)])
          (delayed s)
    | None, Some userRecord =>
        mkState
          (updateWhere (hasId (recordId userRecord)) set_isArchived
             (matchRecord s))
          (nextRecordId s) (sessionHistory s)
          (emitted s ++ [other_declined (socketId userRecord)])
          (delayed s)
    | None, None => s
    end.
Proof.
  unfold run, handleMatchingConfirm, bind, prisma.findFirst. simpl.
  destruct (find (pendingOf u) _) as [ur|], (find (pendingWith u) _) as [m|];
    try reflexivity.
  destruct (isConfirmed ur); [reflexivity|].
  destruct (isConfirmed m); simpl; [|reflexivity].
  now rewrite <- app_assoc.
Qed.

Lemma handleMatchingDecline_cases u s :
  run (handleMatchingDecline u) s =
    match find (pendingWith u) (matchRecord s),
          find (pendingOf u) (matchRecord s) with
    | Some matchedRecord, Some userRecord =>
        mkState
          (updateWhere (hasId (recordId matchedRecord)) set_isArchived
             (updateWhere (hasId (recordId userRecord)) set_isArchived
                (matchRecord s)))
          (nextRecordId s) (sessionHistory s)
          (emitted s ++ [other_declined (socketId matchedRecord)]
                     ++ [matching_fail (socketId userRecord)]
                     ++ [matching_fail (socketId matchedRecord)])
          (delayed s)
    | Some matchedRecord, None =>
        mkState
          (updateWhere (hasId (recordId matchedRecord)) set_isArchived
             (matchRecord s))
          (nextRecordId s) (sessionHistory s)
          (emitted s ++ [other_declined (socketId matchedRecord)]
                     ++ [matching_fail (socketId matchedRecord)])
          (delayed s)
    | None, Some userRecord =>
        mkState
          (updateWhere (hasId (recordId userRecord)) set_isArchived
             (matchRecord s))
          (nextRecordId s) (sessionHistory s)
          (emitted s ++ [other_declined (socketId userRecord)]
                     ++ [matching_fail (socketId userRecord)])
          (delayed s)
    | None, None => s
    end.
Proof.
  unfold run, handleMatchingDecline, bind, prisma.findFirst. simpl.
  destruct (find (pendingOf u) _) as [ur|], (find (pendingWith u) _) as [m|];
    simpl; try reflexivity; now rewrite <- !app_assoc.
Qed.

(** * Request timeout *)

Lemma waitingOn_spec u sock r :
  waitingOn u sock r = true <-> waitingRowOn u sock r.
Proof.
  unfold waitingOn, waitingRowOn.
  rewrite !andb_true_iff, !negb_true_iff, !String.eqb_eq. tauto.
Qed.

Lemma find_firstWith (p : MatchRecord -> bool) (P : MatchRecord -> Prop) l c :
  (forall r, p r = true <-> P r) ->
  find p l = Some c -> firstWith P l c.
Proof.
  intros HP H. destruct (find_first _ _ _ H) as (l1 & l2 & -> & Hc & Hl1).
  exists l1, l2. repeat split; [now apply HP|].
  intros x Hx Px. apply HP in Px. rewrite (Hl1 x Hx) in Px. discriminate.
Qed.

Lemma updateWhere_In p f l r :
  In r l -> p r = true -> In (f r) (updateWhere p f l).
Proof.
  intros Hin Hp. unfold updateWhere.
  apply in_map_iff. exists r. rewrite Hp. auto.
Qed.

Lemma hasId_self r : hasId (recordId r) r = true.
Proof. apply Z.eqb_refl. Qed.

(** The timer of a user who still waits, and of a user who was paired in
    the meantime (the row is pending and is not found). *)
Example timeout_of_waiting_user :
  step Scenario.waitingA (Timeout "A" "socket-a") =
    mkState
      [set_isArchived (waitingRow "A" "arrays" "easy" "socket-a" "room-1" 1)]
      2 [] [timeout "socket-a"] [].
Proof. reflexivity. Qed.

Example timeout_of_paired_user :
  step Scenario.pairedAB (Timeout "A" "socket-a") = Scenario.pairedAB.
Proof. reflexivity. Qed.


(** * Confirm timeout *)

Lemma find_key (l : list MatchRecord) r :
  NoDup (map recordId l) -> In r l -> find (hasId (recordId r)) l = Some r.
Proof.
  intros Hnd Hin. apply find_unique; auto using hasId_self.
  intros x Hx Hid. apply Z.eqb_eq in Hid.
  eapply key_determines_row; eauto.
Qed.

Lemma hasId_update id f r :
  (forall x, recordId (f x) = recordId x) ->
  forall q : bool, hasId id (if q then f r else r) = hasId id r.
Proof. intros Hf [|]; unfold hasId; now rewrite ?Hf. Qed.

Lemma handleConfirmTimeout_twice s id :
  step (step s (ConfirmTimeout id)) (ConfirmTimeout id)
  = step s (ConfirmTimeout id).
Proof.
  unfold step, handle. rewrite (handleConfirmTimeout_cases id s).
  destruct (find (hasId id) (matchRecord s)) as [r|] eqn:E.
  - destruct (isArchived r) eqn:Ha.
    + rewrite handleConfirmTimeout_cases, E, Ha. reflexivity.
    + rewrite handleConfirmTimeout_cases. simpl. unfold updateWhere.
      rewrite find_map_stable, E.
      * simpl. apply find_some in E as [_ ->]. reflexivity.
      * intros x. now apply hasId_update.
  - rewrite handleConfirmTimeout_cases, E. reflexivity.
Qed.

(** C7: [handleConfirmTimeout] leaves the state as it is when no row has
    the given key or when that row is already archived; otherwise it emits
    one [matching_fail] to the row's socket and archives the row.  Run twice
    for the same key, the second run changes nothing, so at most one
    notification is sent and the row is archived once. *)
Theorem handleConfirmTimeout_at_most_once (s : State) (id : Z) :
  uniqueIds s ->
  ((forall r, In r (matchRecord s) -> recordId r <> id) ->
   step s (ConfirmTimeout id) = s)
  /\
  (forall r, In r (matchRecord s) -> recordId r = id -> isArchived r = true ->
   step s (ConfirmTimeout id) = s)
  /\
  (forall r, In r (matchRecord s) -> recordId r = id -> isArchived r = false ->
   step s (ConfirmTimeout id) =
     mkState (updateWhere (hasId id) set_isArchived (matchRecord s))
       (nextRecordId s) (sessionHistory s)
       (emitted s ++ [matching_fail (socketId r)]) (delayed s)
   /\ In (set_isArchived r) (matchRecord (step s (ConfirmTimeout id))))
  /\
  step (step s (ConfirmTimeout id)) (ConfirmTimeout id)
  = step s (ConfirmTimeout id).
Proof.
  intros Hnd. split; [|split; [|split]].
  - intros Hnone. unfold step, handle. rewrite handleConfirmTimeout_cases.
    rewrite find_all_false; [reflexivity|].
    intros x Hx. apply Z.eqb_neq. auto.
  - intros r Hin <- Ha. unfold step, handle.
    rewrite handleConfirmTimeout_cases, find_key, Ha; auto.
  - intros r Hin <- Ha. split.
    + unfold step, handle.
      rewrite handleConfirmTimeout_cases, find_key, Ha; auto.
    + unfold step, handle.
      rewrite handleConfirmTimeout_cases, find_key, Ha; auto. simpl.
      apply updateWhere_In; auto using hasId_self.
  - apply handleConfirmTimeout_twice.
Qed.

Ltac solve_uniqueIds :=
  unfold uniqueIds; simpl; repeat constructor; simpl; intuition discriminate.

Lemma handleConfirmTimeout_at_most_once_witness :
  uniqueIds Scenario.pairedAB /\
  step Scenario.pairedAB (ConfirmTimeout 1) <> Scenario.pairedAB /\
  step (step Scenario.pairedAB (ConfirmTimeout 1)) (ConfirmTimeout 1)
  = step Scenario.pairedAB (ConfirmTimeout 1).
Proof.
  assert (Hu : uniqueIds Scenario.pairedAB) by solve_uniqueIds.
  split; [exact Hu|]. split; [discriminate|].
  exact (proj2 (proj2 (proj2
           (handleConfirmTimeout_at_most_once Scenario.pairedAB 1 Hu)))).
Defined.

(** * No question for the pair *)

(** C8: when the search yields a candidate and the question lookup yields
    nothing, [handleUserRequest] emits [question_error] to the requester's
    socket and to the candidate's socket and deletes the candidate's row;
    no row is created or changed, the key counter, the session history and
    the delayed messages stay as they were. *)
Theorem no_question_deletes_candidate
    (s : State) (env : Env) (userRequest : Req.t) (c : MatchRecord) :
  (forall r, In r (matchRecord s) ->
             waitingOf (Req.userId userRequest) r = false) ->
  existingMatchOf userRequest s = Some c ->
  fetchRandomQuestion env (Req.difficulty userRequest) (Req.topic userRequest)
    = None ->
  step s (UserRequest env userRequest) =
    mkState (filter (fun r => negb (hasId (recordId c) r)) (matchRecord s))
      (nextRecordId s) (sessionHistory s)
      (emitted s ++ [question_error (Req.socketId userRequest)]
                 ++ [question_error (socketId c)])
      (delayed s)
  /\
  (forall r, In r (matchRecord (step s (UserRequest env userRequest))) <->
             In r (matchRecord s) /\ recordId r <> recordId c).
Proof.
  intros Hw Hc Hq.
  assert (E : step s (UserRequest env userRequest) =
    mkState (filter (fun r => negb (hasId (recordId c) r)) (matchRecord s))
      (nextRecordId s) (sessionHistory s)
      (emitted s ++ [question_error (Req.socketId userRequest)]
                 ++ [question_error (socketId c)])
      (delayed s)).
  { unfold step, handle.
    rewrite handleUserRequest_absent by now apply find_all_false.
    rewrite Hc. now apply settle_no_question. }
  split; [exact E|]. rewrite E. simpl. intros r.
  rewrite filter_In, negb_true_iff. unfold hasId. now rewrite Z.eqb_neq.
Qed.

Lemma no_question_deletes_candidate_witness :
  matchRecord
    (step Scenario.waitingA
       (UserRequest Scenario.envNoQuestion Scenario.requestB)) = []
  /\ map event
       (emitted (step Scenario.waitingA
          (UserRequest Scenario.envNoQuestion Scenario.requestB)))
     = ["question_error"; "question_error"].
Proof.
  destruct (no_question_deletes_candidate Scenario.waitingA
              Scenario.envNoQuestion Scenario.requestB
              (waitingRow "A" "arrays" "easy" "socket-a" "room-1" 1))
    as [E _].
  - simpl. intros r [<-|[]]. reflexivity.
  - reflexivity.
  - reflexivity.
  - rewrite E. split; reflexivity.
Defined.

(** * Confirming twice *)

Lemma find_update_confirmed (p : MatchRecord -> bool) id l :
  (forall r, p (set_isConfirmed r) = p r) ->
  find p (updateWhere (hasId id) set_isConfirmed l)
  = option_map (fun r => if hasId id r then set_isConfirmed r else r)
      (find p l).
Proof.
  intros Hp. unfold updateWhere. apply find_map_stable.
  intros x. destruct (hasId id x); auto.
Qed.

Lemma pendingOf_set_isConfirmed u r :
  pendingOf u (set_isConfirmed r) = pendingOf u r.
Proof. reflexivity. Qed.

Lemma pendingWith_set_isConfirmed u r :
  pendingWith u (set_isConfirmed r) = pendingWith u r.
Proof. reflexivity. Qed.

(** A confirm of a user whose pending rows are all confirmed, and who is
    named by some pending row, changes nothing, whatever the row order. *)
Lemma confirm_of_confirmed_user s u :
  (forall y, In y (matchRecord s) -> pendingOf u y = true ->
             isConfirmed y = true) ->
  (exists y, In y (matchRecord s) /\ pendingOf u y = true) ->
  (exists z, In z (matchRecord s) /\ pendingWith u z = true) ->
  step s (MatchingConfirm u) = s.
Proof.
  intros Hall (y & Hy & Py) (z & Hz & Pz).
  unfold step, handle. rewrite handleMatchingConfirm_cases.
  destruct (find (pendingWith u) (matchRecord s)) as [m|] eqn:Em.
  - destruct (find (pendingOf u) (matchRecord s)) as [x|] eqn:Ex.
    + apply find_some in Ex as [Ix Px]. now rewrite (Hall x Ix Px).
    + rewrite (find_none _ _ Ex y Hy) in Py. discriminate.
  - rewrite (find_none _ _ Em z Hz) in Pz. discriminate.
Qed.

Lemma second_confirm_any_order s u userRecord matchedRecord s' :
  find (pendingOf u) (matchRecord s) = Some userRecord ->
  find (pendingWith u) (matchRecord s) = Some matchedRecord ->
  (forall r, In r (matchRecord s) -> pendingOf u r = true -> r = userRecord) ->
  isConfirmed matchedRecord = false ->
  sameRows (step s (MatchingConfirm u)) s' ->
  step s' (MatchingConfirm u) = s'.
Proof.
  intros Hu Hm Huniq Hmc (Hperm & _).
  pose proof (find_some _ _ Hu) as [Iu Pu].
  pose proof (find_some _ _ Hm) as [Im Pm].
  revert Hperm. unfold step at 1. unfold handle.
  rewrite handleMatchingConfirm_cases, Hu, Hm, Hmc.
  destruct (isConfirmed userRecord) eqn:Hc; simpl; intros Hperm.
  - apply confirm_of_confirmed_user.
    + intros y Hy Py. apply (Permutation_in _ (Permutation_sym Hperm)) in Hy.
      now rewrite (Huniq y Hy Py).
    + exists userRecord. split; [|exact Pu].
      now apply (Permutation_in _ Hperm).
    + exists matchedRecord. split; [|exact Pm].
      now apply (Permutation_in _ Hperm).
  - apply confirm_of_confirmed_user.
    + intros y Hy Py. apply (Permutation_in _ (Permutation_sym Hperm)) in Hy.
      unfold updateWhere in Hy. apply in_map_iff in Hy as (x & <- & Hx).
      destruct (hasId (recordId userRecord) x) eqn:Hid; [reflexivity|].
      rewrite (Huniq x Hx Py), hasId_self in Hid. discriminate.
    + exists (set_isConfirmed userRecord). split; [|exact Pu].
      apply (Permutation_in _ Hperm).
      apply updateWhere_In; auto using hasId_self.
    + exists (if hasId (recordId userRecord) matchedRecord
              then set_isConfirmed matchedRecord else matchedRecord).
      split.
      * apply (Permutation_in _ Hperm). unfold updateWhere.
        apply in_map_iff. eauto.
      * destruct (hasId _ matchedRecord); exact Pm.
Qed.

(** C5, as stated, fails for a user with two pending rows: in the reachable
    [Scenario.pairedTwice] both lookups of a confirm of A find a row and
    neither row is confirmed; the confirm sets [isConfirmed] on A's row 2
    and sends [other_accepted] to C.  The lookups have no [orderBy]: when
    the store then returns A's other pending row (key 4) first, a second
    confirm of A sets [isConfirmed] on that row and sends [other_accepted]
    to C once more. *)
Lemma confirm_twice_counterexample :
  reachable Scenario.pairedTwice /\
  (exists userRecord matchedRecord,
     find (pendingOf "A") (matchRecord Scenario.pairedTwice) = Some userRecord /\
     find (pendingWith "A") (matchRecord Scenario.pairedTwice)
     = Some matchedRecord /\
     isConfirmed userRecord = false /\ isConfirmed matchedRecord = false) /\
  sameRows Reordered.confirmedOnce Reordered.confirmedOnce' /\
  map isConfirmed (matchRecord Reordered.confirmedOnce')
  = [false; false; false; true] /\
  map isConfirmed
    (matchRecord (step Reordered.confirmedOnce' (MatchingConfirm "A")))
  = [false; false; true; true] /\
  emitted (step Reordered.confirmedOnce' (MatchingConfirm "A"))
  = emitted Reordered.confirmedOnce' ++ [other_accepted "socket-c"] /\
  In (other_accepted "socket-c") (emitted Reordered.confirmedOnce').
Proof.
  split.
  { exact (reachable_step _ (UserRequest Scenario.env3 Scenario.requestA')
             (reachable_step _ (UserRequest Scenario.env2 Scenario.requestB)
                (reachable_step _ (UserRequest Scenario.env1 Scenario.requestA)
                   (reachable_step _
                      (UserRequest Scenario.env1 Scenario.requestC)
                      reachable_init)))). }
  split.
  { exists (set_matched "B"
              (waitingRow "A" "arrays" "easy" "socket-a" "room-1" 2)),
           (set_matched "A"
              (waitingRow "C" "graphs" "easy" "socket-c" "room-1" 1)).
    split; [vm_compute; reflexivity|].
    split; [vm_compute; reflexivity|]. split; reflexivity. }
  split.
  - unfold sameRows. split; [|split; [|split; [|split]]];
      try (vm_compute; reflexivity).
    vm_compute. apply perm_skip.
    eapply perm_trans; [apply perm_swap|]. apply perm_skip. apply perm_swap.
  - split; [vm_compute; reflexivity|].
    split; [vm_compute; reflexivity|].
    split; [vm_compute; reflexivity|].
    vm_compute. tauto.
Qed.

(** C5 (amended): with the caller's pending row and the counterpart's
    pending row both found, a confirm of a caller who has already confirmed
    leaves the state as it is, and with neither confirmed the first confirm
    sets [isConfirmed] on the caller's row and sends one [other_accepted].
    When the caller holds no other pending, non-archived row and the
    counterpart has not confirmed, a second confirm right after the first
    changes no row and emits nothing, in whatever order the store returns
    its rows. *)
Theorem handleMatchingConfirm_idempotent
    (s : State) (u : string) (userRecord matchedRecord : MatchRecord) :
  find (pendingOf u) (matchRecord s) = Some userRecord ->
  find (pendingWith u) (matchRecord s) = Some matchedRecord ->
  (isConfirmed userRecord = true -> step s (MatchingConfirm u) = s)
  /\
  (isConfirmed userRecord = false -> isConfirmed matchedRecord = false ->
   step s (MatchingConfirm u) =
     mkState
       (updateWhere (hasId (recordId userRecord)) set_isConfirmed
          (matchRecord s))
       (nextRecordId s) (sessionHistory s)
       (emitted s ++ [other_accepted (socketId matchedRecord)]) (delayed s))
  /\
  ((forall r, In r (matchRecord s) -> pendingOf u r = true ->
              r = userRecord) ->
   isConfirmed matchedRecord = false ->
   forall s', sameRows (step s (MatchingConfirm u)) s' ->
              step s' (MatchingConfirm u) = s').
Proof.
  intros Hu Hm. split; [|split].
  - intros Hc. unfold step, handle.
    now rewrite handleMatchingConfirm_cases, Hu, Hm, Hc.
  - intros Hc Hmc. unfold step, handle.
    now rewrite handleMatchingConfirm_cases, Hu, Hm, Hc, Hmc.
  - intros Huniq Hmc s' Hsame.
    exact (second_confirm_any_order s u userRecord matchedRecord s'
             Hu Hm Huniq Hmc Hsame).
Qed.

Lemma handleMatchingConfirm_idempotent_witness :
  (isConfirmed Cases.rowA = true ->
   step Scenario.pairedAB (MatchingConfirm "A") = Scenario.pairedAB)
  /\
  (isConfirmed Cases.rowA = false -> isConfirmed Cases.rowB = false ->
   step Scenario.pairedAB (MatchingConfirm "A") =
     mkState
       (updateWhere (hasId (recordId Cases.rowA)) set_isConfirmed
          (matchRecord Scenario.pairedAB))
       (nextRecordId Scenario.pairedAB) (sessionHistory Scenario.pairedAB)
       (emitted Scenario.pairedAB ++ [other_accepted (socketId Cases.rowB)])
       (delayed Scenario.pairedAB))
  /\
  ((forall r, In r (matchRecord Scenario.pairedAB) ->
              pendingOf "A" r = true -> r = Cases.rowA) ->
   isConfirmed Cases.rowB = false ->
   forall s', sameRows (step Scenario.pairedAB (MatchingConfirm "A")) s' ->
              step s' (MatchingConfirm "A") = s').
Proof.
  apply (handleMatchingConfirm_idempotent Scenario.pairedAB "A"
           Cases.rowA Cases.rowB); reflexivity.
Defined.

(** * A second request of a waiting user *)

(** C9, as stated, fails on the event name: the old socket is told
    ["duplicate socket"], no event named ["duplicate_socket"] is emitted. *)
Lemma duplicate_socket_event_counterexample :
  find (waitingOf (Req.userId Scenario.requestA2))
    (matchRecord Scenario.waitingA)
  = Some (waitingRow "A" "arrays" "easy" "socket-a" "room-1" 1)
  /\ "socket-a" <> Req.socketId Scenario.requestA2
  /\ map event
       (emitted (step Scenario.waitingA
                   (UserRequest Scenario.env2 Scenario.requestA2)))
     = ["duplicate socket"]
  /\ ~ In "duplicate_socket"
       (map event
          (emitted (step Scenario.waitingA
                      (UserRequest Scenario.env2 Scenario.requestA2)))).
Proof.
  split; [reflexivity|]. split; [discriminate|]. split; [reflexivity|].
  simpl. intros [H|[]]. discriminate H.
Qed.

(** C9 (amended): when the lookup of [handleUserRequest] finds a row of the
    user that is neither pending nor archived and whose socket differs from
    the incoming one, the handler emits the event ["duplicate socket"] to
    the old socket and replaces the socket of that one row; every other
    field of the row, every other row, the key counter, the session history
    and the delayed messages are unchanged, and no row is created. *)
Theorem duplicate_request_updates_socket_only
    (s : State) (env : Env) (userRequest : Req.t) (user : MatchRecord) :
  uniqueIds s ->
  find (waitingOf (Req.userId userRequest)) (matchRecord s) = Some user ->
  socketId user <> Req.socketId userRequest ->
  exists l1 l2 user',
    matchRecord s = l1 ++ user :: l2 /\
    sameButSocket (Req.socketId userRequest) user user' /\
    step s (UserRequest env userRequest) =
      mkState (l1 ++ user' :: l2) (nextRecordId s) (sessionHistory s)
        (emitted s ++ [duplicate_socket (socketId user)]) (delayed s).
Proof.
  intros Hnd Hfind Hsock.
  destruct (find_first _ _ _ Hfind) as (l1 & l2 & Hl & _ & _).
  exists l1, l2, (set_socketId (Req.socketId userRequest) user).
  split; [exact Hl|]. split.
  - unfold sameButSocket. simpl. repeat split.
  - unfold step, handle. rewrite (handleUserRequest_present _ _ _ _ Hfind).
    apply String.eqb_neq in Hsock. rewrite Hsock.
    unfold uniqueIds in Hnd. rewrite Hl in Hnd |- *.
    now rewrite updateWhere_key.
Qed.

Lemma duplicate_request_updates_socket_only_witness :
  exists l1 l2 user',
    matchRecord Scenario.waitingA
    = l1 ++ waitingRow "A" "arrays" "easy" "socket-a" "room-1" 1 :: l2 /\
    sameButSocket "socket-a2"
      (waitingRow "A" "arrays" "easy" "socket-a" "room-1" 1) user' /\
    step Scenario.waitingA (UserRequest Scenario.env2 Scenario.requestA2) =
      mkState (l1 ++ user' :: l2) 2 [] ([] ++ [duplicate_socket "socket-a"]) [].
Proof.
  apply (duplicate_request_updates_socket_only Scenario.waitingA
           Scenario.env2 Scenario.requestA2
           (waitingRow "A" "arrays" "easy" "socket-a" "room-1" 1)).
  - solve_uniqueIds.
  - reflexivity.
  - discriminate.
Defined.

(** * The candidate search *)

Lemma previousUserIdsOf_In u x hs :
  In x (previousUserIdsOf u
          (filter (fun m => String.eqb (SessionHistory.userOneId m) u
                            || String.eqb (SessionHistory.userTwoId m) u) hs))
  <-> exists h, In h hs /\ counterpartIn u x h.
Proof.
  unfold previousUserIdsOf, counterpartIn. rewrite in_flat_map. split.
  - intros (m & Hm & Hx). apply filter_In in Hm as [Hin Hor].
    exists m. split; [exact Hin|].
    destruct (String.eqb_spec (SessionHistory.userOneId m) u) as [E1|N1].
    + left. destruct Hx as [<-|[]]. auto.
    + right. simpl in Hor. apply String.eqb_eq in Hor.
      destruct Hx as [<-|[]]. auto.
  - intros (h & Hin & Hc). exists h. split.
    + apply filter_In. split; [exact Hin|]. apply orb_true_iff.
      destruct Hc as [[E _]|[E _]]; rewrite <- String.eqb_eq in E; auto.
    + destruct (String.eqb_spec (SessionHistory.userOneId h) u) as [E1|N1].
      * destruct Hc as [[_ E]|[E2 E]]; [now left|].
        left. congruence.
      * destruct Hc as [[E _]|[_ E]]; [contradiction|now left].
Qed.

Lemma notIn_spec x l : notIn x l = true <-> ~ In x l.
Proof.
  unfold notIn. rewrite negb_true_iff. split.
  - intros H Hin. assert (E : existsb (String.eqb x) l = true).
    { apply existsb_exists. exists x. split; [exact Hin|apply String.eqb_refl]. }
    congruence.
  - intros H. destruct (existsb (String.eqb x) l) eqn:E; [|reflexivity].
    apply existsb_exists in E as (y & Hy & Exy).
    apply String.eqb_eq in Exy. subst y. contradiction.
Qed.

Lemma excludedUserIds_spec s u x :
  notIn x
    (u :: previousUserIdsOf u
            (filter (fun m => String.eqb (SessionHistory.userOneId m) u
                              || String.eqb (SessionHistory.userTwoId m) u)
               (sessionHistory s))) = true
  <-> ~ specExcluded s u x.
Proof.
  rewrite notIn_spec. unfold specExcluded. simpl.
  rewrite previousUserIdsOf_In. intuition.
Qed.

Section Attempts.

Variable s : State.
Variable userRequest : Req.t.

Let u := Req.userId userRequest.
Let t := Req.topic userRequest.
Let d := Req.difficulty userRequest.
Let excludedUserIds :=
  u :: previousUserIdsOf u
         (filter (fun m => String.eqb (SessionHistory.userOneId m) u
                           || String.eqb (SessionHistory.userTwoId m) u)
            (sessionHistory s)).

Lemma attempt1_spec r :
  attempt1 t d excludedUserIds r = true <-> specTier s userRequest Tier1 r.
Proof.
  unfold attempt1, specTier.
  rewrite !andb_true_iff, !negb_true_iff, !String.eqb_eq.
  unfold excludedUserIds. rewrite excludedUserIds_spec.
  fold u t d. tauto.
Qed.

Lemma attempt2_spec r :
  attempt2 t excludedUserIds r = true <-> specTier s userRequest Tier2 r.
Proof.
  unfold attempt2, specTier.
  rewrite !andb_true_iff, !negb_true_iff, !String.eqb_eq.
  unfold excludedUserIds. rewrite excludedUserIds_spec.
  fold u t d. tauto.
Qed.

Lemma attempt3_spec r :
  attempt3 t d u r = true <-> specTier s userRequest Tier3 r.
Proof.
  unfold attempt3, specTier.
  rewrite !andb_true_iff, !negb_true_iff, !String.eqb_eq, String.eqb_neq.
  fold u t d. tauto.
Qed.

Lemma attempt4_spec r :
  attempt4 t u r = true <-> specTier s userRequest Tier4 r.
Proof.
  unfold attempt4, specTier.
  rewrite !andb_true_iff, !negb_true_iff, !String.eqb_eq, String.eqb_neq.
  fold u t d. tauto.
Qed.

Lemma existingMatchOf_attempts :
  existingMatchOf userRequest s =
    match find (attempt1 t d excludedUserIds) (matchRecord s) with
    | Some c => Some c
    | None =>
        match find (attempt2 t excludedUserIds) (matchRecord s) with
        | Some c => Some c
        | None =>
            match find (attempt3 t d u) (matchRecord s) with
            | Some c => Some c
            | None => find (attempt4 t u) (matchRecord s)
            end
        end
    end.
Proof.
  unfold existingMatchOf, searchExistingMatch, bind,
    prisma.sessionHistory_findMany, prisma.findFirst, ret.
  fold u t d. fold excludedUserIds.
  destruct (find (attempt1 _ _ _) _); simpl; [reflexivity|].
  destruct (find (attempt2 _ _) _); simpl; [reflexivity|].
  destruct (find (attempt3 _ _ _) _); simpl; reflexivity.
Qed.

Lemma empty_attempt (p : MatchRecord -> bool) k :
  (forall r, p r = true <-> specTier s userRequest k r) ->
  find p (matchRecord s) = None ->
  forall x, In x (matchRecord s) -> ~ specTier s userRequest k x.
Proof.
  intros Hp Hnone x Hx Hk. apply Hp in Hk.
  rewrite (find_none _ _ Hnone x Hx) in Hk. discriminate.
Qed.

Lemma existingMatchOf_tiers :
  match existingMatchOf userRequest s with
  | Some c => exists k, specSelects s userRequest k c
  | None => specNoCandidate s userRequest
  end.
Proof.
  rewrite existingMatchOf_attempts.
  destruct (find (attempt1 _ _ _) _) as [c|] eqn:E1.
  { exists Tier1. split.
    - eapply find_firstWith; eauto using attempt1_spec.
    - intros [] x Hlt; simpl in Hlt; lia. }
  pose proof (empty_attempt _ _ attempt1_spec E1) as N1.
  destruct (find (attempt2 _ _) _) as [c|] eqn:E2.
  { exists Tier2. split.
    - eapply find_firstWith; eauto using attempt2_spec.
    - intros [] x Hlt; simpl in Hlt; try lia. apply N1. }
  pose proof (empty_attempt _ _ attempt2_spec E2) as N2.
  destruct (find (attempt3 _ _ _) _) as [c|] eqn:E3.
  { exists Tier3. split.
    - eapply find_firstWith; eauto using attempt3_spec.
    - intros [] x Hlt; simpl in Hlt; try lia; [apply N1|apply N2]. }
  pose proof (empty_attempt _ _ attempt3_spec E3) as N3.
  destruct (find (attempt4 _ _) _) as [c|] eqn:E4.
  { exists Tier4. split.
    - eapply find_firstWith; eauto using attempt4_spec.
    - intros [] x Hlt; simpl in Hlt; try lia;
        [apply N1|apply N2|apply N3]. }
  pose proof (empty_attempt _ _ attempt4_spec E4) as N4.
  intros []; auto.
Qed.

End Attempts.

(** A previous partner is passed over while somebody else waits, and is
    taken (even with another difficulty) when nobody else does. *)
Example search_prefers_new_partner :
  existingMatchOf Scenario.requestA Scenario.afterSession
  = Some (waitingRow "C" "arrays" "easy" "socket-c" "room-6" 2).
Proof. reflexivity. Qed.

Example search_falls_back_to_partner :
  existingMatchOf Scenario.requestA Scenario.onlyPartner
  = Some (waitingRow "B" "arrays" "hard" "socket-b" "room-5" 1).
Proof. reflexivity. Qed.

(** C3: the search of [handleUserRequest] goes through the rows that are
    not archived and have [matched = false] in four tiers, in this order:
    same topic and difficulty outside the exclusion set (the requester and
    the previous counterparts of the session history), same topic outside
    the exclusion set, same topic and difficulty other than the requester,
    same topic other than the requester.  The candidate is the first row of
    the first tier that has one; with four empty tiers there is none.  A
    request of a user without a waiting row continues with that outcome. *)
Theorem candidate_search_four_tiers
    (s : State) (env : Env) (userRequest : Req.t) :
  match existingMatchOf userRequest s with
  | Some c => exists k, specSelects s userRequest k c
  | None => specNoCandidate s userRequest
  end
  /\
  ((forall r, In r (matchRecord s) ->
              waitingOf (Req.userId userRequest) r = false) ->
   step s (UserRequest env userRequest) =
     run (settleExistingMatch env userRequest (existingMatchOf userRequest s))
       s).
Proof.
  split.
  - apply existingMatchOf_tiers.
  - intros Hw. unfold step, handle.
    apply handleUserRequest_absent. now apply find_all_false.
Qed.

Lemma firstWith_In P l c : firstWith P l c -> In c l /\ P c.
Proof.
  intros (l1 & l2 & -> & Hc & _). split; [|exact Hc].
  apply in_or_app. right. now left.
Qed.

(** What every candidate satisfies, whatever the tier. *)
Lemma existingMatchOf_candidate s userRequest c :
  existingMatchOf userRequest s = Some c ->
  In c (matchRecord s) /\ isArchived c = false /\ matched c = false /\
  topic c = Req.topic userRequest /\ userId c <> Req.userId userRequest.
Proof.
  intros E. pose proof (existingMatchOf_tiers s userRequest) as H.
  rewrite E in H. destruct H as (k & Hfirst & _).
  apply firstWith_In in Hfirst as (Hin & Ha & Hm & Ht & Hk).
  repeat split; auto.
  destruct k; try tauto.
  - destruct Hk as [_ Hk]. intros Eu. apply Hk. now left.
  - intros Eu. apply Hk. now left.
Qed.

(** * Pairing *)

(** C1, as stated, fails: after A waited and B asked, B's row is matched
    and not archived, A's row is its counterpart, and the two rows differ in
    both the room and the question. *)
Lemma pairing_room_and_question_counterexample :
  ~ pairsShareRoomAndQuestion Scenario.pairedAB.
Proof.
  intros H.
  destruct (H (matchedRow "B" "arrays" "easy" "socket-b" "room-2" "A" 7 2)
              (set_matched "B"
                 (waitingRow "A" "arrays" "easy" "socket-a" "room-1" 1)))
    as [Hroom _].
  - simpl. auto.
  - simpl. auto.
  - reflexivity.
  - reflexivity.
  - split; reflexivity.
  - discriminate Hroom.
Qed.

(** C1 (amended): when [handleUserRequest] pairs the requester with the
    candidate [c], the candidate's row gets [matched], [isPending] and the
    requester as [matchedUserId], and a new row of the requester names the
    candidate: the two rows reference each other and both are matched and
    pending.  The question is stored on the requester's row only, with the
    fresh room; the candidate's [questionId] stays what it was.  Both
    sockets are told the requester's room and question. *)
Theorem pairing_links_requester_and_candidate
    (s : State) (env : Env) (userRequest : Req.t) (c : MatchRecord) (q : Z) :
  (forall r, In r (matchRecord s) ->
             waitingOf (Req.userId userRequest) r = false) ->
  existingMatchOf userRequest s = Some c ->
  fetchRandomQuestion env (Req.difficulty userRequest) (Req.topic userRequest)
    = Some q ->
  exists current candidate,
    matchRecord (step s (UserRequest env userRequest)) =
      updateWhere (hasId (recordId c)) (set_matched (Req.userId userRequest))
        (matchRecord s) ++ [current] /\
    In candidate (matchRecord (step s (UserRequest env userRequest))) /\
    recordId candidate = recordId c /\
    userId current = Req.userId userRequest /\
    userId candidate = userId c /\
    counterparts current candidate /\
    matched current = true /\ isPending current = true /\
    matched candidate = true /\ isPending candidate = true /\
    isArchived current = false /\ isArchived candidate = false /\
    roomNumber current = uuidv4 env /\
    questionId current = Some q /\
    questionId candidate = questionId c /\
    emitted (step s (UserRequest env userRequest)) =
      emitted s
      ++ [mkEmit (Req.socketId userRequest) "matched"
            (Matched (userId c) (uuidv4 env) q)]
      ++ [mkEmit (socketId c) "matched"
            (Matched (Req.userId userRequest) (uuidv4 env) q)].
Proof.
  intros Hw Hc Hq.
  destruct (existingMatchOf_candidate _ _ _ Hc) as (Hin & Ha & _).
  exists (matchedRow (Req.userId userRequest) (Req.topic userRequest)
            (Req.difficulty userRequest) (Req.socketId userRequest)
            (uuidv4 env) (userId c) q (nextRecordId s)),
         (set_matched (Req.userId userRequest) c).
  unfold step, handle.
  rewrite handleUserRequest_absent by now apply find_all_false.
  rewrite Hc, (settle_paired _ _ _ _ _ Hq). simpl.
  repeat split; auto.
  apply in_or_app. left. apply updateWhere_In; auto using hasId_self.
Qed.

Lemma pairing_links_requester_and_candidate_witness :
  exists current candidate,
    matchRecord (step Scenario.waitingA
                   (UserRequest Scenario.env2 Scenario.requestB)) =
      updateWhere (hasId 1) (set_matched "B") (matchRecord Scenario.waitingA)
      ++ [current] /\
    In candidate
       (matchRecord (step Scenario.waitingA
                       (UserRequest Scenario.env2 Scenario.requestB))) /\
    recordId candidate = 1 /\
    userId current = "B" /\
    userId candidate = "A" /\
    counterparts current candidate /\
    matched current = true /\ isPending current = true /\
    matched candidate = true /\ isPending candidate = true /\
    isArchived current = false /\ isArchived candidate = false /\
    roomNumber current = "room-2" /\
    questionId current = Some 7 /\
    questionId candidate = None /\
    emitted (step Scenario.waitingA
               (UserRequest Scenario.env2 Scenario.requestB)) =
      []
      ++ [mkEmit "socket-b" "matched" (Matched "A" "room-2" 7)]
      ++ [mkEmit "socket-a" "matched" (Matched "B" "room-2" 7)].
Proof.
  apply (pairing_links_requester_and_candidate Scenario.waitingA
           Scenario.env2 Scenario.requestB
           (waitingRow "A" "arrays" "easy" "socket-a" "room-1" 1) 7).
  - simpl. intros r [<-|[]]. reflexivity.
  - reflexivity.
  - reflexivity.
Defined.

(** * One waiting row per user *)

Lemma reachable_runEvents es s : reachable s -> reachable (runEvents es s).
Proof.
  revert s. induction es as [|e es IH]; simpl; intros s Hs; [exact Hs|].
  apply IH. now constructor.
Qed.

(** Updates never turn a row into a waiting row. *)
Lemma waitingOf_set_socketId u sock r :
  waitingOf u (set_socketId sock r) = waitingOf u r.
Proof. reflexivity. Qed.

Lemma waitingOf_set_isConfirmed u r :
  waitingOf u (set_isConfirmed r) = waitingOf u r.
Proof. reflexivity. Qed.

Lemma waitingOf_set_isArchived u r :
  waitingOf u (set_isArchived r) = true -> waitingOf u r = true.
Proof. unfold waitingOf. simpl. rewrite andb_false_r. discriminate. Qed.

Lemma waitingOf_set_matched u v r :
  waitingOf u (set_matched v r) = true -> waitingOf u r = true.
Proof. unfold waitingOf. simpl. rewrite andb_false_r. discriminate. Qed.

Lemma neverStartsWaiting_socket sock : neverStartsWaiting (set_socketId sock).
Proof. intros u r. now rewrite waitingOf_set_socketId. Qed.

Lemma neverStartsWaiting_confirmed : neverStartsWaiting set_isConfirmed.
Proof. intros u r. now rewrite waitingOf_set_isConfirmed. Qed.

Lemma neverStartsWaiting_archived : neverStartsWaiting set_isArchived.
Proof. intros u r. apply waitingOf_set_isArchived. Qed.

Lemma neverStartsWaiting_matched v : neverStartsWaiting (set_matched v).
Proof. intros u r. apply waitingOf_set_matched. Qed.

Lemma waiting_after_update u p f l n :
  neverStartsWaiting f ->
  (length (filter (waitingOf u) l) <= n)%nat ->
  (length (filter (waitingOf u) (updateWhere p f l)) <= n)%nat.
Proof.
  intros Hf Hl. etransitivity; [|exact Hl].
  unfold updateWhere. apply filter_map_shrinks.
  intros x. destruct (p x); auto.
Qed.

Lemma waiting_after_delete u q l n :
  (length (filter (waitingOf u) l) <= n)%nat ->
  (length (filter (waitingOf u) (filter q l)) <= n)%nat.
Proof.
  intros Hl. etransitivity; [apply filter_filter_shrinks|exact Hl].
Qed.

Lemma waiting_after_create u l r :
  length (filter (waitingOf u) (l ++ [r])) =
  (length (filter (waitingOf u) l) + if waitingOf u r then 1 else 0)%nat.
Proof.
  rewrite filter_app, length_app. simpl.
  destruct (waitingOf u r); reflexivity.
Qed.

Create HintDb waiting.

#[local] Hint Resolve waiting_after_update waiting_after_delete
  neverStartsWaiting_socket neverStartsWaiting_confirmed
  neverStartsWaiting_archived neverStartsWaiting_matched : waiting.

Lemma step_keeps_one_waiting s e :
  (forall u, (countWaiting u s <= 1)%nat) ->
  forall u, (countWaiting u (step s e) <= 1)%nat.
Proof.
  unfold countWaiting. intros Hs u. pose proof (Hs u) as Hu.
  destruct e as [env userRequest|v|v|v sock|id|sock]; unfold step, handle.
  - destruct (find (waitingOf (Req.userId userRequest)) (matchRecord s))
      as [user|] eqn:E.
    + rewrite (handleUserRequest_present _ _ _ _ E).
      destruct (String.eqb _ _); simpl; auto with waiting.
    + rewrite (handleUserRequest_absent _ _ _ E).
      destruct (existingMatchOf userRequest s) as [c|].
      * destruct (fetchRandomQuestion env (Req.difficulty userRequest)
                    (Req.topic userRequest)) as [q|] eqn:Q.
        -- rewrite (settle_paired _ _ _ _ _ Q). simpl.
           rewrite waiting_after_create. unfold waitingOf at 2. simpl.
           rewrite andb_false_r, Nat.add_0_r. auto with waiting.
        -- rewrite (settle_no_question _ _ _ _ Q). simpl. auto with waiting.
      * rewrite settle_waiting. simpl. rewrite waiting_after_create.
        unfold waitingOf at 2. simpl. rewrite !andb_true_r.
        destruct (String.eqb_spec (Req.userId userRequest) u) as [Eu|_].
        -- rewrite Eu in E. apply find_none_filter_nil in E.
           rewrite E. simpl. lia.
        -- lia.
  - rewrite handleMatchingConfirm_cases.
    destruct (find (pendingWith v) _) as [m|], (find (pendingOf v) _) as [r|];
      auto; [|simpl; auto with waiting..].
    destruct (isConfirmed r); auto.
    destruct (isConfirmed m); simpl; auto 6 with waiting.
  - rewrite handleMatchingDecline_cases.
    destruct (find (pendingWith v) _) as [m|], (find (pendingOf v) _) as [r|];
      auto; simpl; auto 6 with waiting.
  - rewrite handleTimeout_cases.
    destruct (find _ _) as [r|]; auto; simpl; auto with waiting.
  - rewrite handleConfirmTimeout_cases.
    destruct (find _ _) as [r|]; auto.
    destruct (isArchived r); auto; simpl; auto with waiting.
  - rewrite handleDisconnected_cases. simpl. auto with waiting.
Qed.

Lemma reachable_one_waiting s :
  reachable s -> forall u, (countWaiting u s <= 1)%nat.
Proof.
  induction 1 as [|s e _ IH].
  - intros u. unfold countWaiting. simpl. lia.
  - now apply step_keeps_one_waiting.
Qed.

(** C2, as stated, fails: with A and B paired and pending, a further
    request of A is not stopped by the lookup (it asks for
    [isPending: false]) and creates a second row for A; the state is
    reachable and holds two non-archived rows of A. *)
Lemma second_row_for_pending_user_counterexample :
  reachable Scenario.pairedAB /\
  countNonArchived "A" Scenario.pairedAB = 1%nat /\
  reachable Scenario.askedAgain /\
  countNonArchived "A" Scenario.askedAgain = 2%nat /\
  ~ (forall u, (countNonArchived u Scenario.askedAgain <= 1)%nat).
Proof.
  assert (R : reachable Scenario.pairedAB).
  { apply reachable_runEvents. constructor. }
  split; [exact R|]. split; [reflexivity|].
  split; [now constructor|]. split; [reflexivity|].
  intros H. specialize (H "A"). vm_compute in H. lia.
Qed.

(** C2 (amended): in every reachable state each user has at most one row
    that is neither archived nor pending, and [handleUserRequest] creates
    no row for a user who has such a row: the keys in the table and the key
    counter stay as they were.  Pending rows do not stop a request: a user
    without a waiting row, whatever pending rows she holds, gets a new
    non-archived row under the next key, except when the search finds a
    candidate and there is no question; then no row is created. *)
Theorem at_most_one_waiting_row (s : State) :
  reachable s ->
  (forall u, (countWaiting u s <= 1)%nat)
  /\
  (forall env userRequest,
     (0 < countWaiting (Req.userId userRequest) s)%nat ->
     map recordId (matchRecord (step s (UserRequest env userRequest)))
     = map recordId (matchRecord s)
     /\ nextRecordId (step s (UserRequest env userRequest)) = nextRecordId s)
  /\
  (forall env userRequest,
     countWaiting (Req.userId userRequest) s = 0%nat ->
     existingMatchOf userRequest s = None \/
     fetchRandomQuestion env (Req.difficulty userRequest)
       (Req.topic userRequest) <> None ->
     nextRecordId (step s (UserRequest env userRequest)) = nextRecordId s + 1
     /\ exists r',
          In r' (matchRecord (step s (UserRequest env userRequest))) /\
          recordId r' = nextRecordId s /\
          userId r' = Req.userId userRequest /\
          isArchived r' = false)
  /\
  (forall env userRequest c,
     countWaiting (Req.userId userRequest) s = 0%nat ->
     existingMatchOf userRequest s = Some c ->
     fetchRandomQuestion env (Req.difficulty userRequest)
       (Req.topic userRequest) = None ->
     nextRecordId (step s (UserRequest env userRequest)) = nextRecordId s
     /\ forall r',
          In r' (matchRecord (step s (UserRequest env userRequest))) ->
          In r' (matchRecord s)).
Proof.
  intros Hs.
  assert (Hnone : forall u, countWaiting u s = 0%nat ->
                            find (waitingOf u) (matchRecord s) = None).
  { intros u H0. apply find_all_false. intros x Hx.
    destruct (waitingOf u x) eqn:Px; [|reflexivity].
    unfold countWaiting in H0.
    assert (Hin : In x (filter (waitingOf u) (matchRecord s)))
      by (apply filter_In; auto).
    destruct (filter (waitingOf u) (matchRecord s)); [contradiction|].
    discriminate H0. }
  split; [now apply reachable_one_waiting|]. split; [|split].
  - intros env userRequest Hpos. unfold countWaiting in Hpos.
    destruct (find (waitingOf (Req.userId userRequest)) (matchRecord s))
      as [user|] eqn:E.
    + unfold step, handle. rewrite (handleUserRequest_present _ _ _ _ E).
      destruct (String.eqb _ _); simpl; [now split|].
      split; [|reflexivity]. now apply updateWhere_ids.
    + apply find_none_filter_nil in E. rewrite E in Hpos. simpl in Hpos. lia.
  - intros env userRequest H0 Hq. unfold step, handle.
    rewrite (handleUserRequest_absent _ _ _ (Hnone _ H0)).
    destruct (existingMatchOf userRequest s) as [c|].
    + destruct (fetchRandomQuestion env (Req.difficulty userRequest)
                  (Req.topic userRequest)) as [q|] eqn:Q.
      * rewrite (settle_paired _ _ _ _ _ Q). simpl. split; [reflexivity|].
        eexists. split; [apply in_or_app; right; now left|].
        repeat split.
      * destruct Hq as [Hq|Hq]; [discriminate|contradiction].
    + rewrite settle_waiting. simpl. split; [reflexivity|].
      eexists. split; [apply in_or_app; right; now left|].
      repeat split.
  - intros env userRequest c H0 Hc Q. unfold step, handle.
    rewrite (handleUserRequest_absent _ _ _ (Hnone _ H0)), Hc.
    rewrite (settle_no_question _ _ _ _ Q). simpl. split; [reflexivity|].
    intros r' Hr'. now apply filter_In in Hr' as [Hr' _].
Qed.

Lemma at_most_one_waiting_row_witness :
  (forall u, (countWaiting u Scenario.pairedAB <= 1)%nat)
  /\
  (forall env userRequest,
     (0 < countWaiting (Req.userId userRequest) Scenario.pairedAB)%nat ->
     map recordId
       (matchRecord (step Scenario.pairedAB (UserRequest env userRequest)))
     = map recordId (matchRecord Scenario.pairedAB)
     /\ nextRecordId (step Scenario.pairedAB (UserRequest env userRequest))
        = nextRecordId Scenario.pairedAB)
  /\
  (forall env userRequest,
     countWaiting (Req.userId userRequest) Scenario.pairedAB = 0%nat ->
     existingMatchOf userRequest Scenario.pairedAB = None \/
     fetchRandomQuestion env (Req.difficulty userRequest)
       (Req.topic userRequest) <> None ->
     nextRecordId (step Scenario.pairedAB (UserRequest env userRequest))
     = nextRecordId Scenario.pairedAB + 1
     /\ exists r',
          In r'
            (matchRecord (step Scenario.pairedAB (UserRequest env userRequest)))
          /\ recordId r' = nextRecordId Scenario.pairedAB /\
          userId r' = Req.userId userRequest /\
          isArchived r' = false)
  /\
  (forall env userRequest c,
     countWaiting (Req.userId userRequest) Scenario.pairedAB = 0%nat ->
     existingMatchOf userRequest Scenario.pairedAB = Some c ->
     fetchRandomQuestion env (Req.difficulty userRequest)
       (Req.topic userRequest) = None ->
     nextRecordId (step Scenario.pairedAB (UserRequest env userRequest))
     = nextRecordId Scenario.pairedAB
     /\ forall r',
          In r'
            (matchRecord (step Scenario.pairedAB (UserRequest env userRequest)))
          -> In r' (matchRecord Scenario.pairedAB)).
Proof.
  apply (at_most_one_waiting_row Scenario.pairedAB).
  apply (reachable_runEvents
           [UserRequest Scenario.env1 Scenario.requestA;
            UserRequest Scenario.env2 Scenario.requestB]
           initialState reachable_init).
Defined.

(** * Double confirmation *)

Lemma pendingOf_spec u r :
  pendingOf u r = true <->
  userId r = u /\ isPending r = true /\ isArchived r = false.
Proof.
  unfold pendingOf.
  rewrite !andb_true_iff, negb_true_iff, String.eqb_eq. tauto.
Qed.

Lemma pendingWith_spec u r :
  pendingWith u r = true <->
  matchedUserId r = Some u /\ isPending r = true /\ isArchived r = false.
Proof.
  unfold pendingWith, optEq.
  rewrite !andb_true_iff, negb_true_iff.
  destruct (matchedUserId r) as [v|].
  - rewrite String.eqb_eq. split.
    + intros [[-> ?] ?]. auto.
    + intros [[= ->] ?]. tauto.
  - split; [intros [[? _] _]; discriminate | intros [? _]; discriminate].
Qed.

Lemma pendingPair_sym s a b ra rb :
  pendingPair s a b ra rb -> pendingPair s b a rb ra.
Proof. unfold pendingPair. tauto. Qed.

Lemma onlyPair_sym s a b ra rb :
  onlyPair s a b ra rb -> onlyPair s b a rb ra.
Proof. intros H r Hin Hp Ha. destruct (H r Hin Hp Ha). tauto. Qed.

Lemma archivePair_sym ra rb r : archivePair ra rb r = archivePair rb ra r.
Proof. unfold archivePair. now rewrite orb_comm. Qed.

Lemma doubleConfirmed_sym s s' a b ra rb :
  doubleConfirmed s s' a b ra rb -> doubleConfirmed s s' b a rb ra.
Proof.
  intros (Hrows & Harch & (h & Hh & Hu) & (es & Hes & Hperm) & Hn & Hd).
  repeat split; auto.
  - rewrite Hrows. apply map_ext. intros r. apply archivePair_sym.
  - intros r Hin Hid. apply Harch; tauto.
  - exists h. split; [exact Hh|tauto].
  - exists es. split; [exact Hes|].
    etransitivity; [exact Hperm|apply perm_swap].
Qed.

Section DoubleConfirm.

Variables (s : State) (a b : string) (ra rb : MatchRecord).
Hypothesis Hids : uniqueIds s.
Hypothesis Hpair : pendingPair s a b ra rb.
Hypothesis Honly : onlyPair s a b ra rb.
Hypothesis Hab : a <> b.

Lemma pair_lookups :
  find (pendingOf a) (matchRecord s) = Some ra /\
  find (pendingWith a) (matchRecord s) = Some rb /\
  find (pendingOf b) (matchRecord s) = Some rb /\
  find (pendingWith b) (matchRecord s) = Some ra.
Proof.
  destruct Hpair as (Ia & Ib & (Ua & Ma & Pa & Aa) & (Ub & Mb & Pb & Ab)).
  repeat split; apply find_unique; auto;
    try (apply pendingOf_spec; now auto);
    try (apply pendingWith_spec; now auto);
    intros x Hx Hp;
    first [apply pendingOf_spec in Hp | apply pendingWith_spec in Hp];
    destruct Hp as (E & Px & Ax); destruct (Honly x Hx Px Ax); auto.
Qed.

Lemma pair_keys_differ : recordId ra <> recordId rb.
Proof.
  destruct Hpair as (Ia & Ib & (Ua & _) & (Ub & _)).
  intros E. apply Hab.
  rewrite <- Ua, <- Ub. f_equal.
  eapply key_determines_row; eauto.
Qed.

(** Rows other than the pair's are not found by the pair's lookups. *)
Lemma pair_gone (p : MatchRecord -> bool) (F : MatchRecord -> MatchRecord) :
  (forall x, p x = true -> isPending x = true /\ isArchived x = false /\
             (userId x = a \/ matchedUserId x = Some b \/
              userId x = b \/ matchedUserId x = Some a)) ->
  (forall x, hasId (recordId ra) x || hasId (recordId rb) x = true ->
             isArchived (F x) = true) ->
  (forall x, hasId (recordId ra) x || hasId (recordId rb) x = false ->
             F x = x) ->
  find p (map F (matchRecord s)) = None.
Proof.
  intros Hp Hin Hout. apply find_all_false. intros y Hy.
  apply in_map_iff in Hy as (x & <- & Hx).
  destruct (hasId (recordId ra) x || hasId (recordId rb) x) eqn:E.
  - destruct (p (F x)) eqn:Pf; [|reflexivity].
    apply Hp in Pf as (_ & Af & _). rewrite Hin in Af; auto.
  - rewrite Hout by exact E. destruct (p x) eqn:Px; [|reflexivity].
    apply Hp in Px as (Pp & Ap & Hu).
    apply orb_false_iff in E as [Ea Eb].
    destruct (Honly x Hx Pp Ap) as [Ha Hb].
    destruct Hu as [U|[U|[U|U]]];
      [ rewrite Ha in Ea by auto | rewrite Ha in Ea by auto
      | rewrite Hb in Eb by auto | rewrite Hb in Eb by auto ];
      rewrite hasId_self in *; discriminate.
Qed.

Lemma doubleConfirmed_intro rows h es :
  rows = map (archivePair ra rb) (matchRecord s) ->
  (SessionHistory.userOneId h = a /\ SessionHistory.userTwoId h = b) \/
  (SessionHistory.userOneId h = b /\ SessionHistory.userTwoId h = a) ->
  Permutation (filter (isEvent "matching_success") es)
    [matching_success (socketId ra); matching_success (socketId rb)] ->
  doubleConfirmed s
    (mkState rows (nextRecordId s) (sessionHistory s ++ [h])
       (emitted s ++ es) (delayed s)) a b ra rb.
Proof.
  intros -> Hh Hes. unfold doubleConfirmed. simpl.
  repeat split; eauto.
  intros r Hr Hid. apply in_map_iff in Hr as (x & <- & _).
  unfold archivePair in *.
  destruct (hasId (recordId ra) x || hasId (recordId rb) x) eqn:E;
    [reflexivity|].
  apply orb_false_iff in E as [Ea Eb]. unfold hasId in Ea, Eb.
  apply Z.eqb_neq in Ea, Eb. tauto.
Qed.

#[local] Ltac split_keys x E1 E2 :=
  unfold hasId;
  destruct (recordId x =? recordId ra) eqn:E1;
  destruct (recordId x =? recordId rb) eqn:E2;
  repeat (simpl; rewrite ?E1, ?E2); simpl.

Lemma rows_both_confirm :
  updateWhere (hasId (recordId rb)) set_isArchived
    (updateWhere (hasId (recordId ra)) set_isArchived
       (updateWhere (hasId (recordId rb)) set_isConfirmed
          (updateWhere (hasId (recordId ra)) set_isConfirmed
             (matchRecord s))))
  = map (archivePair ra rb) (matchRecord s).
Proof.
  pose proof pair_keys_differ as Hk.
  unfold updateWhere. rewrite !map_map. apply map_ext. intros x.
  unfold archivePair. split_keys x E1 E2; reflexivity.
Qed.

Lemma rows_second_confirms :
  isConfirmed ra = true ->
  updateWhere (hasId (recordId rb)) set_isArchived
    (updateWhere (hasId (recordId ra)) set_isArchived
       (updateWhere (hasId (recordId rb)) set_isConfirmed
          (matchRecord s)))
  = map (archivePair ra rb) (matchRecord s).
Proof.
  intros Ca. pose proof pair_keys_differ as Hk.
  destruct Hpair as (Ia & _).
  unfold updateWhere. rewrite !map_map. apply map_ext_in. intros x Hx.
  unfold archivePair. split_keys x E1 E2; try reflexivity.
  apply Z.eqb_eq in E1.
  rewrite (key_determines_row _ _ _ Hids Hx Ia E1).
  now rewrite (set_isConfirmed_confirmed ra Ca).
Qed.

Lemma rows_first_confirms :
  isConfirmed rb = true ->
  updateWhere (hasId (recordId ra)) set_isArchived
    (updateWhere (hasId (recordId rb)) set_isArchived
       (updateWhere (hasId (recordId ra)) set_isConfirmed
          (matchRecord s)))
  = map (archivePair ra rb) (matchRecord s).
Proof.
  intros Cb. pose proof pair_keys_differ as Hk.
  destruct Hpair as (_ & Ib & _).
  unfold updateWhere. rewrite !map_map. apply map_ext_in. intros x Hx.
  unfold archivePair. split_keys x E1 E2; try reflexivity.
  apply Z.eqb_eq in E2.
  rewrite (key_determines_row _ _ _ Hids Hx Ib E2).
  now rewrite (set_isConfirmed_confirmed rb Cb).
Qed.

Lemma confirm_in_turn :
  isConfirmed ra && isConfirmed rb = false ->
  doubleConfirmed s
    (step (step s (MatchingConfirm a)) (MatchingConfirm b)) a b ra rb.
Proof.
  intros Hnot.
  destruct pair_lookups as (Fa & Fwa & Fb & Fwb).
  pose proof pair_keys_differ as Hk.
  destruct Hpair as (Ia & Ib & (Ua & Ma & Pa & Aa) & (Ub & Mb & Pb & Ab)).
  unfold step at 2. unfold handle.
  rewrite handleMatchingConfirm_cases, Fa, Fwa.
  destruct (isConfirmed ra) eqn:Ca; [destruct (isConfirmed rb) eqn:Cb|].
  - discriminate.
  - unfold step, handle. rewrite handleMatchingConfirm_cases, Fb, Fwb, Cb, Ca.
    apply doubleConfirmed_intro.
    + now apply rows_second_confirms.
    + simpl. auto.
    + simpl. apply perm_swap.
  - destruct (isConfirmed rb) eqn:Cb.
    + rewrite rows_first_confirms by exact Cb.
      unfold step, handle. rewrite handleMatchingConfirm_cases. simpl.
      rewrite !pair_gone.
      * apply doubleConfirmed_intro; simpl; auto.
      * intros x Hx. apply pendingOf_spec in Hx. tauto.
      * intros x Hx. unfold archivePair. now rewrite Hx.
      * intros x Hx. unfold archivePair. now rewrite Hx.
      * intros x Hx. apply pendingWith_spec in Hx. tauto.
      * intros x Hx. unfold archivePair. now rewrite Hx.
      * intros x Hx. unfold archivePair. now rewrite Hx.
    + unfold step, handle. rewrite handleMatchingConfirm_cases. simpl.
      rewrite !find_update_confirmed, Fb, Fwb
        by auto using pendingOf_set_isConfirmed, pendingWith_set_isConfirmed.
      simpl. rewrite hasId_self.
      replace (hasId (recordId ra) rb) with false
        by (symmetry; apply Z.eqb_neq; congruence).
      rewrite Cb. simpl. rewrite rows_both_confirm, <- app_assoc.
      apply doubleConfirmed_intro; simpl; auto.
      apply perm_swap.
Qed.

End DoubleConfirm.

(** The session row is written from the row of whoever confirmed first:
    after A waited and B asked, both sockets were told B's room; when A
    confirms first the session carries A's own room instead. *)
Example session_room_follows_first_confirmer :
  map SessionHistory.roomNumber
    (sessionHistory
       (runEvents [MatchingConfirm "A"; MatchingConfirm "B"]
          Scenario.pairedAB)) = ["room-1"]
  /\
  map SessionHistory.roomNumber
    (sessionHistory
       (runEvents [MatchingConfirm "B"; MatchingConfirm "A"]
          Scenario.pairedAB)) = ["room-2"]
  /\
  map payload (emitted Scenario.pairedAB)
  = [Matched "A" "room-2" 7; Matched "B" "room-2" 7].
Proof. repeat split. Qed.

(** C4, as stated, fails: in a reachable state A and B hold pending rows
    that name each other, yet confirming B and then A archives neither row,
    writes no session row and emits no [matching_success].  A holds a second
    pending row (paired with C), and C's row, which also names A, comes
    first in the table, so A's confirm takes C's row for the counterpart. *)
Lemma double_confirmation_counterexample :
  reachable Scenario.pairedTwice /\
  pendingPair Scenario.pairedTwice "A" "B"
    (set_matched "B" (waitingRow "A" "arrays" "easy" "socket-a" "room-1" 2))
    (matchedRow "B" "arrays" "easy" "socket-b" "room-2" "A" 7 3) /\
  sessionHistory
    (runEvents [MatchingConfirm "B"; MatchingConfirm "A"]
       Scenario.pairedTwice) = [] /\
  filter (isEvent "matching_success")
    (emitted
       (runEvents [MatchingConfirm "B"; MatchingConfirm "A"]
          Scenario.pairedTwice)) = [] /\
  map isArchived
    (matchRecord
       (runEvents [MatchingConfirm "B"; MatchingConfirm "A"]
          Scenario.pairedTwice)) = [false; false; false; false].
Proof.
  split; [apply reachable_runEvents; constructor|].
  split; [|repeat split; reflexivity].
  unfold pendingPair. simpl. tauto.
Qed.

(** C4 (amended): let A and B hold pending, non-archived rows that name
    each other, let no other pending, non-archived row belong to A or B or
    name one of them, and let at most one of the two have confirmed
    already.  Then confirming A and then B, and confirming B and then A,
    both end with the two rows confirmed and archived and every other row
    as it was, with exactly one new session row, for A and B, and with
    exactly two [matching_success] among the new emissions, one to each of
    the two sockets. *)
Theorem double_confirmation_commutes
    (s : State) (a b : string) (ra rb : MatchRecord) :
  uniqueIds s ->
  pendingPair s a b ra rb ->
  onlyPair s a b ra rb ->
  a <> b ->
  isConfirmed ra && isConfirmed rb = false ->
  doubleConfirmed s
    (runEvents [MatchingConfirm a; MatchingConfirm b] s) a b ra rb
  /\
  doubleConfirmed s
    (runEvents [MatchingConfirm b; MatchingConfirm a] s) a b ra rb.
Proof.
  intros Hids Hpair Honly Hab Hnot. split.
  - now apply confirm_in_turn.
  - apply doubleConfirmed_sym. apply confirm_in_turn;
      auto using pendingPair_sym, onlyPair_sym.
    now rewrite andb_comm.
Qed.

Lemma double_confirmation_commutes_witness :
  doubleConfirmed Scenario.pairedAB
    (runEvents [MatchingConfirm "A"; MatchingConfirm "B"] Scenario.pairedAB)
    "A" "B"
    (set_matched "B" (waitingRow "A" "arrays" "easy" "socket-a" "room-1" 1))
    (matchedRow "B" "arrays" "easy" "socket-b" "room-2" "A" 7 2)
  /\
  doubleConfirmed Scenario.pairedAB
    (runEvents [MatchingConfirm "B"; MatchingConfirm "A"] Scenario.pairedAB)
    "A" "B"
    (set_matched "B" (waitingRow "A" "arrays" "easy" "socket-a" "room-1" 1))
    (matchedRow "B" "arrays" "easy" "socket-b" "room-2" "A" 7 2).
Proof.
  apply double_confirmation_commutes.
  - solve_uniqueIds.
  - unfold pendingPair. simpl. tauto.
  - intros r [<-|[<-|[]]] _ _; simpl; split; intros [H|H];
      solve [reflexivity | discriminate H].
  - discriminate.
  - reflexivity.
Defined.

(** * The primary key in reachable states *)

Lemma wellFormed_keys s :
  wellFormed s <-> keysBelow (map recordId (matchRecord s)) (nextRecordId s).
Proof.
  unfold wellFormed, uniqueIds, keysBelow. split; intros [Hnd Hlt].
  - split; [exact Hnd|]. intros id Hid.
    apply in_map_iff in Hid as (r & <- & Hr). auto.
  - split; [exact Hnd|]. intros r Hr. apply Hlt. now apply in_map.
Qed.

Lemma keysBelow_create ids n : keysBelow ids n -> keysBelow (ids ++ [n]) (n + 1).
Proof.
  intros [Hnd Hlt]. split.
  - apply NoDup_app; [exact Hnd|repeat constructor; simpl; tauto|].
    intros x Hx [E|[]]. specialize (Hlt x Hx). lia.
  - intros id Hid. apply in_app_or in Hid as [Hid|[E|[]]]; [|lia].
    specialize (Hlt id Hid). lia.
Qed.

Lemma keysBelow_delete (q : MatchRecord -> bool) l n :
  keysBelow (map recordId l) n -> keysBelow (map recordId (filter q l)) n.
Proof.
  intros [Hnd Hlt]. split.
  - induction l as [|a l IH]; simpl in *; [constructor|].
    inversion Hnd as [|? ? Hn Hnd']; subst.
    assert (Hl : NoDup (map recordId (filter q l))) by (apply IH; auto).
    destruct (q a); simpl; [|exact Hl].
    constructor; [|exact Hl].
    intros Hin. apply Hn. apply in_map_iff in Hin as (x & Ex & Hx).
    apply filter_In in Hx as [Hx _]. rewrite <- Ex. now apply in_map.
  - intros id Hid. apply Hlt. apply in_map_iff in Hid as (x & Ex & Hx).
    apply filter_In in Hx as [Hx _]. rewrite <- Ex. now apply in_map.
Qed.

#[local] Ltac same_keys :=
  simpl; rewrite ?updateWhere_ids by reflexivity; assumption.

Lemma step_wellFormed s e : wellFormed s -> wellFormed (step s e).
Proof.
  rewrite !wellFormed_keys. intros Hs.
  destruct e as [env userRequest|u|u|u sock|id|sock]; unfold step, handle.
  - destruct (find (waitingOf (Req.userId userRequest)) (matchRecord s))
      as [user|] eqn:E.
    + rewrite (handleUserRequest_present _ _ _ _ E).
      destruct (String.eqb _ _); same_keys.
    + rewrite (handleUserRequest_absent _ _ _ E).
      destruct (existingMatchOf userRequest s) as [c|].
      * destruct (fetchRandomQuestion env (Req.difficulty userRequest)
                    (Req.topic userRequest)) as [q|] eqn:Q.
        -- rewrite (settle_paired _ _ _ _ _ Q). simpl.
           rewrite map_app, updateWhere_ids by reflexivity.
           now apply keysBelow_create.
        -- rewrite (settle_no_question _ _ _ _ Q). simpl.
           now apply keysBelow_delete.
      * rewrite settle_waiting. simpl. rewrite map_app.
        now apply keysBelow_create.
  - rewrite handleMatchingConfirm_cases.
    destruct (find (pendingWith u) _) as [m|], (find (pendingOf u) _) as [x|];
      try same_keys.
    destruct (isConfirmed x); [assumption|].
    destruct (isConfirmed m); same_keys.
  - rewrite handleMatchingDecline_cases.
    destruct (find (pendingWith u) _) as [m|], (find (pendingOf u) _) as [x|];
      same_keys.
  - rewrite handleTimeout_cases. destruct (find _ _) as [x|]; same_keys.
  - rewrite handleConfirmTimeout_cases.
    destruct (find _ _) as [x|]; [|assumption].
    destruct (isArchived x); same_keys.
  - rewrite handleDisconnected_cases. same_keys.
Qed.

Lemma reachable_wellFormed s : reachable s -> wellFormed s.
Proof.
  induction 1 as [|s e _ IH].
  - split; [constructor|]. simpl. contradiction.
  - now apply step_wellFormed.
Qed.

(** * Archived rows *)

Lemma filter_comm {A} (p q : A -> bool) l :
  filter p (filter q l) = filter q (filter p l).
Proof.
  induction l as [|a l IH]; simpl; [reflexivity|].
  destruct (q a) eqn:Q, (p a) eqn:P; simpl; rewrite ?Q, ?P; congruence.
Qed.

Lemma updateWhere_keeps r p f l :
  In r l -> (p r = true -> f r = r) -> In r (updateWhere p f l).
Proof.
  intros Hin Hf. unfold updateWhere. apply in_map_iff. exists r.
  split; [|exact Hin]. destruct (p r); auto.
Qed.

(** The guards of the lookups ask for [isArchived: false]. *)
Lemma waitingOf_live u x : waitingOf u x = true -> isArchived x = false.
Proof. unfold waitingOf. rewrite !andb_true_iff, !negb_true_iff. tauto. Qed.

Lemma waitingOn_live u sock x :
  waitingOn u sock x = true -> isArchived x = false.
Proof. unfold waitingOn. rewrite !andb_true_iff, !negb_true_iff. tauto. Qed.

Lemma pendingOf_live u x : pendingOf u x = true -> isArchived x = false.
Proof. unfold pendingOf. rewrite !andb_true_iff, !negb_true_iff. tauto. Qed.

Lemma pendingWith_live u x : pendingWith u x = true -> isArchived x = false.
Proof. unfold pendingWith. rewrite !andb_true_iff, !negb_true_iff. tauto. Qed.

Lemma attempt1_live t d ex x : attempt1 t d ex x = true -> isArchived x = false.
Proof. unfold attempt1. rewrite !andb_true_iff, !negb_true_iff. tauto. Qed.

Lemma attempt2_live t ex x : attempt2 t ex x = true -> isArchived x = false.
Proof. unfold attempt2. rewrite !andb_true_iff, !negb_true_iff. tauto. Qed.

Lemma attempt3_live t d u x : attempt3 t d u x = true -> isArchived x = false.
Proof. unfold attempt3. rewrite !andb_true_iff, !negb_true_iff. tauto. Qed.

Lemma attempt4_live t u x : attempt4 t u x = true -> isArchived x = false.
Proof. unfold attempt4. rewrite !andb_true_iff, !negb_true_iff. tauto. Qed.

Section Archived.

Variables (s : State) (r : MatchRecord).
Hypothesis Hwf : wellFormed s.
Hypothesis Hin : In r (matchRecord s).
Hypothesis Harch : isArchived r = true.

Let others (x : MatchRecord) : bool := negb (hasId (recordId r) x).

Lemma live_has_other_key x :
  In x (matchRecord s) -> isArchived x = false ->
  hasId (recordId x) r = false /\ others x = true.
Proof.
  intros Hx Ha. destruct Hwf as [Hids _].
  assert (N : recordId x <> recordId r).
  { intros E. rewrite (key_determines_row _ _ _ Hids Hx Hin E) in Ha.
    congruence. }
  unfold others, hasId. split.
  - apply Z.eqb_neq. congruence.
  - apply negb_true_iff, Z.eqb_neq. exact N.
Qed.

Lemma find_forget (p : MatchRecord -> bool) :
  (forall x, p x = true -> isArchived x = false) ->
  find p (filter others (matchRecord s)) = find p (matchRecord s).
Proof.
  intros Hp. apply find_filter. intros x Hx Px.
  now apply live_has_other_key; auto.
Qed.

Lemma forget_update p f l :
  (forall x, recordId (f x) = recordId x) ->
  filter others (updateWhere p f l) = updateWhere p f (filter others l).
Proof.
  intros Hf. unfold updateWhere. apply filter_map_stable.
  intros x. unfold others, hasId. destruct (p x); now rewrite ?Hf.
Qed.

Lemma forget_create l x :
  recordId x = nextRecordId s ->
  filter others (l ++ [x]) = filter others l ++ [x].
Proof.
  intros Hx. rewrite filter_app. simpl.
  replace (others x) with true; [reflexivity|].
  symmetry. unfold others, hasId. apply negb_true_iff, Z.eqb_neq.
  destruct Hwf as [_ Hlt]. specialize (Hlt r Hin). lia.
Qed.

Lemma existingMatchOf_forget userRequest :
  existingMatchOf userRequest (forget r s) = existingMatchOf userRequest s.
Proof.
  rewrite !existingMatchOf_attempts. simpl.
  fold others.
  rewrite !find_forget;
    eauto using attempt1_live, attempt2_live, attempt3_live, attempt4_live.
Qed.

Lemma forget_state rows n sh em d :
  forget r (mkState rows n sh em d) = mkState (filter others rows) n sh em d.
Proof. reflexivity. Qed.

Lemma step_forget_request env userRequest :
  step (forget r s) (UserRequest env userRequest)
  = forget r (step s (UserRequest env userRequest)).
Proof.
  unfold step, handle.
  destruct (find (waitingOf (Req.userId userRequest)) (matchRecord s))
    as [user|] eqn:E.
  - rewrite (handleUserRequest_present env userRequest s user E).
    rewrite (handleUserRequest_present env userRequest (forget r s) user)
      by (simpl; fold others; rewrite find_forget;
          eauto using waitingOf_live).
    destruct (String.eqb _ _); [reflexivity|].
    rewrite forget_state, forget_update by reflexivity. reflexivity.
  - rewrite (handleUserRequest_absent env userRequest s E).
    rewrite (handleUserRequest_absent env userRequest (forget r s))
      by (simpl; fold others; rewrite find_forget;
          eauto using waitingOf_live).
    rewrite existingMatchOf_forget.
    destruct (existingMatchOf userRequest s) as [c|].
    + destruct (fetchRandomQuestion env (Req.difficulty userRequest)
                  (Req.topic userRequest)) as [q|] eqn:Q.
      * rewrite !(settle_paired _ _ _ _ _ Q), forget_state.
        rewrite forget_create, forget_update by reflexivity. reflexivity.
      * rewrite !(settle_no_question _ _ _ _ Q), forget_state.
        simpl. fold others. now rewrite filter_comm.
    + rewrite !settle_waiting, forget_state.
      rewrite forget_create by reflexivity. reflexivity.
Qed.

#[local] Ltac forget_rows :=
  rewrite ?forget_state, ?forget_update by reflexivity; reflexivity.

Lemma step_forget_confirm u :
  step (forget r s) (MatchingConfirm u)
  = forget r (step s (MatchingConfirm u)).
Proof.
  unfold step, handle. rewrite !handleMatchingConfirm_cases. simpl.
  fold others.
  rewrite !find_forget by eauto using pendingOf_live, pendingWith_live.
  destruct (find (pendingWith u) _) as [m|], (find (pendingOf u) _) as [x|];
    try forget_rows.
  destruct (isConfirmed x); [reflexivity|].
  destruct (isConfirmed m); forget_rows.
Qed.

Lemma step_forget_decline u :
  step (forget r s) (MatchingDecline u)
  = forget r (step s (MatchingDecline u)).
Proof.
  unfold step, handle. rewrite !handleMatchingDecline_cases. simpl.
  fold others.
  rewrite !find_forget by eauto using pendingOf_live, pendingWith_live.
  destruct (find (pendingWith u) _) as [m|], (find (pendingOf u) _) as [x|];
    forget_rows.
Qed.

Lemma step_forget_timeout u sock :
  step (forget r s) (Timeout u sock) = forget r (step s (Timeout u sock)).
Proof.
  unfold step, handle. rewrite !handleTimeout_cases. simpl. fold others.
  rewrite !find_forget by eauto using waitingOn_live.
  destruct (find _ _) as [x|]; forget_rows.
Qed.

Lemma step_forget_confirmTimeout id :
  step (forget r s) (ConfirmTimeout id)
  = forget r (step s (ConfirmTimeout id)).
Proof.
  unfold step, handle. rewrite !handleConfirmTimeout_cases. simpl.
  fold others. destruct Hwf as [Hids _].
  destruct (Z.eq_dec id (recordId r)) as [->|N].
  - rewrite (find_key _ _ Hids Hin), Harch.
    rewrite find_all_false; [reflexivity|].
    intros x Hx. apply filter_In in Hx as [_ Hx].
    unfold others in Hx. now apply negb_true_iff in Hx.
  - rewrite find_filter.
    + destruct (find _ _) as [x|]; [|reflexivity].
      destruct (isArchived x); forget_rows.
    + intros x _ Hx. unfold others, hasId in *.
      apply Z.eqb_eq in Hx. apply negb_true_iff, Z.eqb_neq. congruence.
Qed.

Lemma step_forget_disconnected sock :
  step (forget r s) (Disconnected sock)
  = forget r (step s (Disconnected sock)).
Proof.
  unfold step, handle. rewrite !handleDisconnected_cases.
  unfold forget, with_matchRecord. simpl. fold others.
  now rewrite forget_update.
Qed.

Lemma step_forget e : step (forget r s) e = forget r (step s e).
Proof.
  destruct e;
    auto using step_forget_request, step_forget_confirm,
      step_forget_decline, step_forget_timeout,
      step_forget_confirmTimeout, step_forget_disconnected.
Qed.

Lemma stays_archive p l :
  In r l -> In r (updateWhere p set_isArchived l).
Proof.
  intros H. apply updateWhere_keeps; auto.
  intros _. now apply set_isArchived_archived.
Qed.

Lemma stays_other (p : MatchRecord -> bool) x f l :
  find p (matchRecord s) = Some x ->
  (forall y, p y = true -> isArchived y = false) ->
  In r l -> In r (updateWhere (hasId (recordId x)) f l).
Proof.
  intros Hx Hp H. apply find_some in Hx as [Ix Px].
  apply updateWhere_keeps; auto.
  destruct (live_has_other_key x Ix (Hp x Px)) as [E _]. congruence.
Qed.

Lemma stays_delete (p : MatchRecord -> bool) x l :
  find p (matchRecord s) = Some x ->
  (forall y, p y = true -> isArchived y = false) ->
  In r l -> In r (filter (fun y => negb (hasId (recordId x) y)) l).
Proof.
  intros Hx Hp H. apply find_some in Hx as [Ix Px].
  apply filter_In. split; [exact H|].
  destruct (live_has_other_key x Ix (Hp x Px)) as [E _]. now rewrite E.
Qed.

Lemma existingMatchOf_found userRequest c :
  existingMatchOf userRequest s = Some c ->
  find (fun y => hasId (recordId c) y && negb (isArchived y))
    (matchRecord s) = Some c.
Proof.
  intros E. destruct (existingMatchOf_candidate _ _ _ E) as (Ic & Ac & _).
  destruct Hwf as [Hids _]. apply find_unique; auto.
  - now rewrite hasId_self, Ac.
  - intros y Hy Py. apply andb_true_iff in Py as [Py _].
    apply Z.eqb_eq in Py. eapply key_determines_row; eauto.
Qed.

Lemma archived_row_stays e : In r (matchRecord (step s e)).
Proof.
  assert (Hlive : forall c (y : MatchRecord),
            hasId (recordId c) y && negb (isArchived y) = true ->
            isArchived y = false).
  { intros c y Hy. apply andb_true_iff in Hy as [_ Hy].
    now apply negb_true_iff in Hy. }
  destruct e as [env userRequest|u|u|u sock|id|sock]; unfold step, handle.
  - destruct (find (waitingOf (Req.userId userRequest)) (matchRecord s))
      as [user|] eqn:E.
    + rewrite (handleUserRequest_present _ _ _ _ E).
      destruct (String.eqb _ _); simpl; auto.
      eapply stays_other; eauto using waitingOf_live.
    + rewrite (handleUserRequest_absent _ _ _ E).
      destruct (existingMatchOf userRequest s) as [c|] eqn:Ec.
      * apply existingMatchOf_found in Ec.
        destruct (fetchRandomQuestion env (Req.difficulty userRequest)
                    (Req.topic userRequest)) as [q|] eqn:Q.
        -- rewrite (settle_paired _ _ _ _ _ Q). simpl.
           apply in_or_app. left.
           eapply stays_other; [exact Ec|apply Hlive|exact Hin].
        -- rewrite (settle_no_question _ _ _ _ Q). simpl.
           eapply stays_delete; [exact Ec|apply Hlive|exact Hin].
      * rewrite settle_waiting. simpl. apply in_or_app. now left.
  - rewrite handleMatchingConfirm_cases.
    destruct (find (pendingWith u) _) as [m|] eqn:Em,
             (find (pendingOf u) _) as [x|] eqn:Ex;
      simpl; auto using stays_archive.
    destruct (isConfirmed x); auto.
    destruct (isConfirmed m); simpl;
      repeat apply stays_archive;
      eapply stays_other; eauto using pendingOf_live.
  - rewrite handleMatchingDecline_cases.
    destruct (find (pendingWith u) _) as [m|], (find (pendingOf u) _) as [x|];
      simpl; auto using stays_archive.
  - rewrite handleTimeout_cases.
    destruct (find _ _) as [x|]; simpl; auto using stays_archive.
  - rewrite handleConfirmTimeout_cases.
    destruct (find _ _) as [x|]; auto.
    destruct (isArchived x); simpl; auto using stays_archive.
  - rewrite handleDisconnected_cases. simpl. auto using stays_archive.
Qed.

End Archived.

(** C10: let [r] be an archived row of a table with a primary key.
    Whatever the event (request, confirm, decline, request timeout, confirm
    timeout, disconnect), its handler leaves [r] in the table with every
    field as it was, so the row under [r]'s key is still [r]; it runs as it
    would on the table without [r] (same emissions, same session rows, same
    delayed messages, same other rows); and the candidate search never
    yields [r]. *)
Theorem archival_is_terminal (s : State) (e : Event) (r : MatchRecord) :
  wellFormed s ->
  In r (matchRecord s) ->
  isArchived r = true ->
  In r (matchRecord (step s e)) /\
  find (hasId (recordId r)) (matchRecord (step s e)) = Some r /\
  step (forget r s) e = forget r (step s e) /\
  emitted (step s e) = emitted (step (forget r s) e) /\
  (forall userRequest, existingMatchOf userRequest s <> Some r).
Proof.
  intros Hwf Hin Harch. split; [|split; [|split; [|split]]].
  - now apply archived_row_stays.
  - apply find_key; [|now apply archived_row_stays].
    now apply (step_wellFormed s e).
  - now apply step_forget.
  - now rewrite step_forget.
  - intros userRequest E.
    destruct (existingMatchOf_candidate _ _ _ E) as (_ & Ha & _).
    congruence.
Qed.

Lemma archival_is_terminal_witness :
  In (set_isArchived (waitingRow "A" "arrays" "easy" "socket-a" "room-1" 1))
    (matchRecord
       (step Scenario.timedOutA (UserRequest Scenario.env2 Scenario.requestB)))
  /\
  find (hasId 1)
    (matchRecord
       (step Scenario.timedOutA (UserRequest Scenario.env2 Scenario.requestB)))
  = Some (set_isArchived
            (waitingRow "A" "arrays" "easy" "socket-a" "room-1" 1))
  /\
  step
    (forget
       (set_isArchived (waitingRow "A" "arrays" "easy" "socket-a" "room-1" 1))
       Scenario.timedOutA)
    (UserRequest Scenario.env2 Scenario.requestB)
  = forget
      (set_isArchived (waitingRow "A" "arrays" "easy" "socket-a" "room-1" 1))
      (step Scenario.timedOutA (UserRequest Scenario.env2 Scenario.requestB))
  /\
  emitted
    (step Scenario.timedOutA (UserRequest Scenario.env2 Scenario.requestB))
  = emitted
      (step
         (forget
            (set_isArchived
               (waitingRow "A" "arrays" "easy" "socket-a" "room-1" 1))
            Scenario.timedOutA)
         (UserRequest Scenario.env2 Scenario.requestB))
  /\
  (forall userRequest,
     existingMatchOf userRequest Scenario.timedOutA
     <> Some (set_isArchived
                (waitingRow "A" "arrays" "easy" "socket-a" "room-1" 1))).
Proof.
  apply (archival_is_terminal Scenario.timedOutA
           (UserRequest Scenario.env2 Scenario.requestB)
           (set_isArchived
              (waitingRow "A" "arrays" "easy" "socket-a" "room-1" 1))).
  - split; [solve_uniqueIds|].
    simpl. intros r [<-|[]]. reflexivity.
  - simpl. now left.
  - reflexivity.
Defined.

(** * How rows change *)

Lemma evolves_refl r : evolves r r.
Proof. unfold evolves, sameIdentity, flagsKept. tauto. Qed.

Lemma evolves_trans r1 r2 r3 : evolves r1 r2 -> evolves r2 r3 -> evolves r1 r3.
Proof.
  unfold evolves, sameIdentity, flagsKept.
  intros [(A1 & A2 & A3 & A4 & A5 & A6) (B1 & B2 & B3 & B4)]
         [(C1 & C2 & C3 & C4 & C5 & C6) (D1 & D2 & D3 & D4)].
  repeat split; try congruence; auto.
Qed.

Lemma raises_socketId sock : raises (set_socketId sock).
Proof. intros r. unfold evolves, sameIdentity, flagsKept. simpl. tauto. Qed.

Lemma raises_isArchived : raises set_isArchived.
Proof. intros r. unfold evolves, sameIdentity, flagsKept. simpl. tauto. Qed.

Lemma raises_isConfirmed : raises set_isConfirmed.
Proof. intros r. unfold evolves, sameIdentity, flagsKept. simpl. tauto. Qed.

Lemma raises_matched u : raises (set_matched u).
Proof. intros r. unfold evolves, sameIdentity, flagsKept. simpl. tauto. Qed.

Lemma stemFrom_refl l : stemFrom l l.
Proof. intros r Hr. exists r. auto using evolves_refl. Qed.

Lemma stemFrom_update l l' p f :
  raises f -> stemFrom l l' -> stemFrom l (updateWhere p f l').
Proof.
  intros Hf H r' Hr'. unfold updateWhere in Hr'.
  apply in_map_iff in Hr' as (x & <- & Hx).
  destruct (H x Hx) as (r & Hr & Hev). exists r. split; [exact Hr|].
  destruct (p x); [|exact Hev]. eapply evolves_trans; eauto.
Qed.

Lemma stemFrom_filter l l' (q : MatchRecord -> bool) :
  stemFrom l l' -> stemFrom l (filter q l').
Proof. intros H r' Hr'. apply filter_In in Hr' as [Hr' _]. auto. Qed.

Create HintDb rows.
#[local] Hint Resolve stemFrom_refl stemFrom_update stemFrom_filter
  raises_socketId raises_isArchived raises_isConfirmed raises_matched : rows.

Lemma step_stemFrom s e :
  isUserRequest e = false -> stemFrom (matchRecord s) (matchRecord (step s e)).
Proof.
  destruct e as [env userRequest|u|u|u sock|id|sock]; [discriminate|..];
    intros _; unfold step, handle.
  - rewrite handleMatchingConfirm_cases.
    destruct (find (pendingWith u) _) as [m|], (find (pendingOf u) _) as [x|];
      simpl; auto with rows.
    destruct (isConfirmed x); auto with rows.
    destruct (isConfirmed m); simpl; auto 6 with rows.
  - rewrite handleMatchingDecline_cases.
    destruct (find (pendingWith u) _) as [m|], (find (pendingOf u) _) as [x|];
      simpl; auto 6 with rows.
  - rewrite handleTimeout_cases.
    destruct (find _ _) as [x|]; simpl; auto with rows.
  - rewrite handleConfirmTimeout_cases.
    destruct (find _ _) as [x|]; auto with rows.
    destruct (isArchived x); simpl; auto with rows.
  - rewrite handleDisconnected_cases. simpl. auto with rows.
Qed.

Lemma request_rows s env userRequest r' :
  In r' (matchRecord (step s (UserRequest env userRequest))) ->
  (exists r, In r (matchRecord s) /\ evolves r r') \/
  (recordId r' = nextRecordId s /\
   userId r' = Req.userId userRequest /\
   topic r' = Req.topic userRequest /\
   difficulty r' = Req.difficulty userRequest /\
   socketId r' = Req.socketId userRequest /\
   roomNumber r' = uuidv4 env /\
   isConfirmed r' = false /\ isArchived r' = false).
Proof.
  unfold step, handle.
  destruct (find (waitingOf (Req.userId userRequest)) (matchRecord s))
    as [user|] eqn:E.
  - rewrite (handleUserRequest_present _ _ _ _ E).
    destruct (String.eqb _ _); simpl; intros H; left;
      refine ((_ : stemFrom (matchRecord s) _) r' H); auto with rows.
  - rewrite (handleUserRequest_absent _ _ _ E).
    destruct (existingMatchOf userRequest s) as [c|].
    + destruct (fetchRandomQuestion env (Req.difficulty userRequest)
                  (Req.topic userRequest)) as [q|] eqn:Q.
      * rewrite (settle_paired _ _ _ _ _ Q). simpl. intros H.
        apply in_app_or in H as [H|[<-|[]]].
        -- left. refine ((_ : stemFrom (matchRecord s) _) r' H).
           auto with rows.
        -- right. simpl. repeat split.
      * rewrite (settle_no_question _ _ _ _ Q). simpl. intros H. left.
        refine ((_ : stemFrom (matchRecord s) _) r' H). auto with rows.
    + rewrite settle_waiting. simpl. intros H.
      apply in_app_or in H as [H|[<-|[]]].
      * left. exists r'. auto using evolves_refl.
      * right. simpl. repeat split.
Qed.

Lemma flagsOnly_refl r : flagsOnly r r.
Proof. unfold flagsOnly. tauto. Qed.

Lemma flagsOnly_trans r1 r2 r3 :
  flagsOnly r1 r2 -> flagsOnly r2 r3 -> flagsOnly r1 r3.
Proof.
  unfold flagsOnly. intros H1 H2.
  decompose [and] H1. decompose [and] H2.
  repeat split; try congruence; auto.
Qed.

Lemma flagsOnly_isArchived r : flagsOnly r (set_isArchived r).
Proof. unfold flagsOnly. simpl. tauto. Qed.

Lemma flagsOnly_isConfirmed r : flagsOnly r (set_isConfirmed r).
Proof. unfold flagsOnly. simpl. tauto. Qed.

Lemma Forall2_flagsOnly_refl l : Forall2 flagsOnly l l.
Proof. induction l; constructor; auto using flagsOnly_refl. Qed.

Lemma Forall2_flagsOnly_update l l' p f :
  (forall r, flagsOnly r (f r)) ->
  Forall2 flagsOnly l l' -> Forall2 flagsOnly l (updateWhere p f l').
Proof.
  intros Hf H. induction H as [|x y l l' Hxy _ IH]; simpl; constructor; auto.
  destruct (p y); [|exact Hxy]. eapply flagsOnly_trans; eauto.
Qed.

#[local] Hint Resolve Forall2_flagsOnly_refl Forall2_flagsOnly_update
  flagsOnly_isArchived flagsOnly_isConfirmed : rows.

Lemma step_flagsOnly s e :
  isUserRequest e = false ->
  Forall2 flagsOnly (matchRecord s) (matchRecord (step s e)) /\
  nextRecordId (step s e) = nextRecordId s /\
  delayed (step s e) = delayed s.
Proof.
  destruct e as [env userRequest|u|u|u sock|id|sock]; [discriminate|..];
    intros _; unfold step, handle.
  - rewrite handleMatchingConfirm_cases.
    destruct (find (pendingWith u) _) as [m|], (find (pendingOf u) _) as [x|];
      simpl; auto with rows.
    destruct (isConfirmed x); auto with rows.
    destruct (isConfirmed m); simpl; auto 7 with rows.
  - rewrite handleMatchingDecline_cases.
    destruct (find (pendingWith u) _) as [m|], (find (pendingOf u) _) as [x|];
      simpl; auto 6 with rows.
  - rewrite handleTimeout_cases.
    destruct (find _ _) as [x|]; simpl; auto with rows.
  - rewrite handleConfirmTimeout_cases.
    destruct (find _ _) as [x|]; auto with rows.
    destruct (isArchived x); simpl; auto with rows.
  - rewrite handleDisconnected_cases. simpl. auto with rows.
Qed.

(** * What holds of every row of a reachable state *)

Lemma rowInv_set_socketId sock r : rowInv r -> rowInv (set_socketId sock r).
Proof. unfold rowInv. simpl. tauto. Qed.

Lemma rowInv_set_isArchived r : rowInv r -> rowInv (set_isArchived r).
Proof. unfold rowInv. simpl. tauto. Qed.

Lemma rowInv_set_isConfirmed r :
  isPending r = true -> rowInv r -> rowInv (set_isConfirmed r).
Proof. unfold rowInv. simpl. tauto. Qed.

Lemma rowInv_set_matched u r :
  userId r <> u -> rowInv r -> rowInv (set_matched u r).
Proof.
  unfold rowInv. simpl. intros Hu H. repeat split; try discriminate.
  intros _. exists u. split; congruence.
Qed.

Lemma rowInv_waitingRow u t d sock room id :
  rowInv (waitingRow u t d sock room id).
Proof. unfold rowInv. simpl. repeat split; discriminate. Qed.

Lemma rowInv_matchedRow u t d sock room other q id :
  other <> u -> rowInv (matchedRow u t d sock room other q id).
Proof.
  unfold rowInv. simpl. intros Hu. repeat split; try discriminate.
  intros _. exists other. auto.
Qed.

Lemma rowInv_update_all p f l :
  (forall r, rowInv r -> rowInv (f r)) ->
  Forall rowInv l -> Forall rowInv (updateWhere p f l).
Proof.
  intros Hf H. unfold updateWhere. apply Forall_map.
  eapply Forall_impl; [|exact H]. intros r Hr. destruct (p r); auto.
Qed.

Lemma rowInv_update_key x f l :
  NoDup (map recordId l) -> In x l -> rowInv (f x) ->
  Forall rowInv l -> Forall rowInv (updateWhere (hasId (recordId x)) f l).
Proof.
  intros Hnd Hx Hfx H. unfold updateWhere. apply Forall_map.
  apply Forall_forall. intros r Hr.
  destruct (hasId (recordId x) r) eqn:E.
  - apply Z.eqb_eq in E.
    now rewrite (key_determines_row _ _ _ Hnd Hr Hx E).
  - rewrite Forall_forall in H. auto.
Qed.

Lemma rowInv_filter (q : MatchRecord -> bool) l :
  Forall rowInv l -> Forall rowInv (filter q l).
Proof.
  rewrite !Forall_forall. intros H r Hr.
  apply filter_In in Hr as [Hr _]. auto.
Qed.

#[local] Hint Resolve rowInv_update_all rowInv_filter rowInv_set_socketId
  rowInv_set_isArchived : rows.

Lemma step_rowInv s e :
  wellFormed s ->
  Forall rowInv (matchRecord s) -> Forall rowInv (matchRecord (step s e)).
Proof.
  intros [Hids _] Hs.
  destruct e as [env userRequest|u|u|u sock|id|sock]; unfold step, handle.
  - destruct (find (waitingOf (Req.userId userRequest)) (matchRecord s))
      as [user|] eqn:E.
    + rewrite (handleUserRequest_present _ _ _ _ E).
      destruct (String.eqb _ _); simpl; auto with rows.
    + rewrite (handleUserRequest_absent _ _ _ E).
      destruct (existingMatchOf userRequest s) as [c|] eqn:Ec.
      * destruct (existingMatchOf_candidate _ _ _ Ec) as (Ic & _ & _ & _ & Uc).
        destruct (fetchRandomQuestion env (Req.difficulty userRequest)
                    (Req.topic userRequest)) as [q|] eqn:Q.
        -- rewrite (settle_paired _ _ _ _ _ Q). simpl.
           apply Forall_app. split.
           ++ apply rowInv_update_key; auto.
              apply rowInv_set_matched; auto.
              rewrite Forall_forall in Hs. auto.
           ++ constructor; [|constructor]. now apply rowInv_matchedRow.
        -- rewrite (settle_no_question _ _ _ _ Q). simpl. auto with rows.
      * rewrite settle_waiting. simpl. apply Forall_app. split; auto.
        constructor; [|constructor]. apply rowInv_waitingRow.
  - rewrite handleMatchingConfirm_cases.
    destruct (find (pendingWith u) _) as [m|] eqn:Em,
             (find (pendingOf u) _) as [x|] eqn:Ex;
      simpl; auto with rows.
    assert (Hx : Forall rowInv
                   (updateWhere (hasId (recordId x)) set_isConfirmed
                      (matchRecord s))).
    { apply find_some in Ex as [Ix Px].
      apply pendingOf_spec in Px as (_ & Px & _).
      apply rowInv_update_key; auto.
      apply rowInv_set_isConfirmed; auto.
      rewrite Forall_forall in Hs. auto. }
    destruct (isConfirmed x); auto.
    destruct (isConfirmed m); simpl; auto with rows.
  - rewrite handleMatchingDecline_cases.
    destruct (find (pendingWith u) _) as [m|], (find (pendingOf u) _) as [x|];
      simpl; auto with rows.
  - rewrite handleTimeout_cases.
    destruct (find _ _) as [x|]; simpl; auto with rows.
  - rewrite handleConfirmTimeout_cases.
    destruct (find _ _) as [x|]; auto.
    destruct (isArchived x); simpl; auto with rows.
  - rewrite handleDisconnected_cases. simpl. auto with rows.
Qed.

Lemma reachable_rowInv s : reachable s -> Forall rowInv (matchRecord s).
Proof.
  induction 1 as [|s e Hs IH].
  - constructor.
  - apply step_rowInv; auto using reachable_wellFormed.
Qed.

Lemma waitingOn_waitingOf u sock r :
  waitingOn u sock r = true -> waitingOf u r = true.
Proof.
  unfold waitingOn, waitingOf. rewrite !andb_true_iff. tauto.
Qed.

Lemma filter_at_most_one {A} (p : A -> bool) l x y :
  (length (filter p l) <= 1)%nat ->
  In x l -> In y l -> p x = true -> p y = true -> x = y.
Proof.
  intros Hlen Hx Hy Px Py.
  assert (Ix : In x (filter p l)) by (apply filter_In; auto).
  assert (Iy : In y (filter p l)) by (apply filter_In; auto).
  destruct (filter p l) as [|a [|b l']]; simpl in *; try lia; try tauto.
  destruct Ix as [<-|[]], Iy as [<-|[]]. reflexivity.
Qed.

Lemma timeout_twice s u sock :
  (countWaiting u s <= 1)%nat ->
  step (step s (Timeout u sock)) (Timeout u sock) = step s (Timeout u sock).
Proof.
  intros Hone. unfold step, handle. rewrite (handleTimeout_cases u sock s).
  destruct (find (waitingOn u sock) (matchRecord s)) as [r|] eqn:E.
  - rewrite handleTimeout_cases. simpl.
    rewrite find_all_false; [reflexivity|].
    intros y Hy. unfold updateWhere in Hy.
    apply in_map_iff in Hy as (x & <- & Hx).
    apply find_some in E as [Ir Pr].
    destruct (hasId (recordId r) x) eqn:Hid.
    + destruct (waitingOn u sock (set_isArchived x)) eqn:Pa; [|reflexivity].
      apply waitingOn_live in Pa. discriminate Pa.
    + destruct (waitingOn u sock x) eqn:Px; [|reflexivity].
      assert (x = r).
      { apply (filter_at_most_one (waitingOf u) (matchRecord s));
          eauto using waitingOn_waitingOf. }
      subst x. rewrite hasId_self in Hid. discriminate.
  - now rewrite handleTimeout_cases, E.
Qed.

Lemma session_written_by_confirm s e :
  sessionHistory (step s e) = sessionHistory s \/
  exists u userRecord matchedRecord,
    e = MatchingConfirm u /\
    find (pendingOf u) (matchRecord s) = Some userRecord /\
    find (pendingWith u) (matchRecord s) = Some matchedRecord /\
    isConfirmed userRecord = false /\ isConfirmed matchedRecord = true /\
    sessionHistory (step s e)
    = sessionHistory s ++ [sessionOf userRecord matchedRecord].
Proof.
  destruct e as [env userRequest|u|u|u sock|id|sock]; unfold step, handle.
  - left.
    destruct (find (waitingOf (Req.userId userRequest)) (matchRecord s))
      as [user|] eqn:E.
    + rewrite (handleUserRequest_present _ _ _ _ E).
      destruct (String.eqb _ _); reflexivity.
    + rewrite (handleUserRequest_absent _ _ _ E).
      destruct (existingMatchOf userRequest s) as [c|]; [|reflexivity].
      destruct (fetchRandomQuestion env (Req.difficulty userRequest)
                  (Req.topic userRequest)) as [q|] eqn:Q.
      * now rewrite (settle_paired _ _ _ _ _ Q).
      * now rewrite (settle_no_question _ _ _ _ Q).
  - rewrite handleMatchingConfirm_cases.
    destruct (find (pendingWith u) _) as [m|] eqn:Em,
             (find (pendingOf u) _) as [x|] eqn:Ex; auto.
    destruct (isConfirmed x) eqn:Cx; auto.
    destruct (isConfirmed m) eqn:Cm; auto.
    right. exists u, x, m. auto 10.
  - left. rewrite handleMatchingDecline_cases.
    destruct (find (pendingWith u) _) as [m|], (find (pendingOf u) _) as [x|];
      reflexivity.
  - left. rewrite handleTimeout_cases. destruct (find _ _); reflexivity.
  - left. rewrite handleConfirmTimeout_cases.
    destruct (find _ _) as [x|]; [|reflexivity].
    destruct (isArchived x); reflexivity.
  - left. reflexivity.
Qed.

Lemma reachable_sessionInv s :
  reachable s -> Forall sessionInv (sessionHistory s).
Proof.
  induction 1 as [|s e Hs IH].
  - constructor.
  - destruct (session_written_by_confirm s e)
      as [->|(u & x & m & _ & Ex & Em & _ & _ & ->)]; [exact IH|].
    apply Forall_app. split; [exact IH|]. constructor; [|constructor].
    apply find_some in Ex as [_ Px], Em as [Im Pm].
    apply pendingOf_spec in Px as (Ux & _).
    apply pendingWith_spec in Pm as (Mm & Pm & _).
    pose proof (reachable_rowInv s Hs) as Hrows.
    rewrite Forall_forall in Hrows.
    destruct (Hrows m Im) as (Hmp & _ & _ & Hself).
    destruct Hself as (v & Ev & Nv); [congruence|].
    split; [|reflexivity]. simpl. congruence.
Qed.

(** * How a pairing ends without a session *)

Section PairEnds.

Variables (s : State) (a b : string) (ra rb : MatchRecord).
Hypothesis Hids : uniqueIds s.
Hypothesis Hpair : pendingPair s a b ra rb.
Hypothesis Honly : onlyPair s a b ra rb.
Hypothesis Hab : a <> b.

(** The lookups of [a] once the partner's row is archived. *)
Lemma lookups_partner_gone (F : MatchRecord -> MatchRecord) :
  (forall x, F x = x \/ isArchived (F x) = true) ->
  F ra = ra -> isArchived (F rb) = true ->
  find (pendingOf a) (map F (matchRecord s)) = Some ra /\
  find (pendingWith a) (map F (matchRecord s)) = None.
Proof.
  intros HF Hra Hrb.
  destruct Hpair as (Ia & Ib & (Ua & Ma & Pa & Aa) & (Ub & Mb & Pb & Ab)).
  split.
  - apply find_unique.
    + apply in_map_iff. exists ra. auto.
    + apply pendingOf_spec. auto.
    + intros y Hy Py. apply in_map_iff in Hy as (x & <- & Hx).
      destruct (HF x) as [E|E].
      * rewrite E in *. apply pendingOf_spec in Py as (Ux & Px & Ax).
        destruct (Honly x Hx Px Ax) as [H _]. auto.
      * apply pendingOf_live in Py. congruence.
  - apply find_all_false. intros y Hy. apply in_map_iff in Hy as (x & <- & Hx).
    destruct (pendingWith a (F x)) eqn:Py; [|reflexivity].
    pose proof (pendingWith_live _ _ Py) as Ay.
    destruct (HF x) as [E|E]; [|congruence].
    rewrite E in *. apply pendingWith_spec in Py as (Mx & Px & Ax).
    destruct (Honly x Hx Px Ax) as [_ H].
    rewrite (H (or_intror Mx)) in *. congruence.
Qed.

(** The lookups of [a] once [a]'s own row is archived. *)
Lemma lookups_own_gone (F : MatchRecord -> MatchRecord) :
  (forall x, F x = x \/ isArchived (F x) = true) ->
  F rb = rb -> isArchived (F ra) = true ->
  find (pendingOf a) (map F (matchRecord s)) = None /\
  find (pendingWith a) (map F (matchRecord s)) = Some rb.
Proof.
  intros HF Hrb Hra.
  destruct Hpair as (Ia & Ib & (Ua & Ma & Pa & Aa) & (Ub & Mb & Pb & Ab)).
  split.
  - apply find_all_false. intros y Hy. apply in_map_iff in Hy as (x & <- & Hx).
    destruct (pendingOf a (F x)) eqn:Py; [|reflexivity].
    pose proof (pendingOf_live _ _ Py) as Ay.
    destruct (HF x) as [E|E]; [|congruence].
    rewrite E in *. apply pendingOf_spec in Py as (Ux & Px & Ax).
    destruct (Honly x Hx Px Ax) as [H _].
    rewrite (H (or_introl Ux)) in *. congruence.
  - apply find_unique.
    + apply in_map_iff. exists rb. auto.
    + apply pendingWith_spec. auto.
    + intros y Hy Py. apply in_map_iff in Hy as (x & <- & Hx).
      destruct (HF x) as [E|E].
      * rewrite E in *. apply pendingWith_spec in Py as (Mx & Px & Ax).
        destruct (Honly x Hx Px Ax) as [_ H]. auto.
      * apply pendingWith_live in Py. congruence.
Qed.

Lemma archive_by_key_cases k x :
  (if hasId k x then set_isArchived x else x) = x \/
  isArchived (if hasId k x then set_isArchived x else x) = true.
Proof. destruct (hasId k x); auto. Qed.

#[local] Ltac split_pair_keys x E1 E2 :=
  unfold hasId;
  destruct (recordId x =? recordId ra) eqn:E1;
  destruct (recordId x =? recordId rb) eqn:E2;
  repeat (simpl; rewrite ?E1, ?E2); simpl.

Lemma rows_archive_both :
  updateWhere (hasId (recordId ra)) set_isArchived
    (updateWhere (hasId (recordId rb)) set_isArchived (matchRecord s))
  = map (archiveBoth ra rb) (matchRecord s).
Proof.
  unfold updateWhere. rewrite map_map. apply map_ext. intros x.
  unfold archiveBoth. split_pair_keys x E1 E2; reflexivity.
Qed.

Lemma rows_archive_both' :
  updateWhere (hasId (recordId rb)) set_isArchived
    (updateWhere (hasId (recordId ra)) set_isArchived (matchRecord s))
  = map (archiveBoth ra rb) (matchRecord s).
Proof.
  unfold updateWhere. rewrite map_map. apply map_ext. intros x.
  unfold archiveBoth. split_pair_keys x E1 E2; reflexivity.
Qed.

Lemma partner_timed_out_then_confirm :
  step (step s (ConfirmTimeout (recordId rb))) (MatchingConfirm a) =
    mkState (map (archiveBoth ra rb) (matchRecord s))
      (nextRecordId s) (sessionHistory s)
      (emitted s ++ [matching_fail (socketId rb)]
                 ++ [other_declined (socketId ra)])
      (delayed s).
Proof.
  pose proof (pair_keys_differ _ _ _ _ _ Hids Hpair Hab) as Hk.
  destruct Hpair as (Ia & Ib & (Ua & Ma & Pa & Aa) & (Ub & Mb & Pb & Ab)).
  unfold step at 2. unfold handle.
  rewrite handleConfirmTimeout_cases, (find_key _ _ Hids Ib), Ab. simpl.
  unfold step, handle. rewrite handleMatchingConfirm_cases. simpl.
  destruct (lookups_partner_gone
              (fun r => if hasId (recordId rb) r then set_isArchived r else r))
    as [Eo Ew].
  - intros x. apply archive_by_key_cases.
  - replace (hasId (recordId rb) ra) with false; [reflexivity|].
    symmetry. apply Z.eqb_neq. exact Hk.
  - now rewrite hasId_self.
  - change (find (pendingOf a)
              (updateWhere (hasId (recordId rb)) set_isArchived
                 (matchRecord s)) = Some ra) in Eo.
    change (find (pendingWith a)
              (updateWhere (hasId (recordId rb)) set_isArchived
                 (matchRecord s)) = None) in Ew.
    rewrite Eo, Ew. now rewrite rows_archive_both, <- app_assoc.
Qed.

Lemma own_timed_out_then_confirm :
  step (step s (ConfirmTimeout (recordId ra))) (MatchingConfirm a) =
    mkState (map (archiveBoth ra rb) (matchRecord s))
      (nextRecordId s) (sessionHistory s)
      (emitted s ++ [matching_fail (socketId ra)]
                 ++ [other_declined (socketId rb)])
      (delayed s).
Proof.
  pose proof (pair_keys_differ _ _ _ _ _ Hids Hpair Hab) as Hk.
  destruct Hpair as (Ia & Ib & (Ua & Ma & Pa & Aa) & (Ub & Mb & Pb & Ab)).
  unfold step at 2. unfold handle.
  rewrite handleConfirmTimeout_cases, (find_key _ _ Hids Ia), Aa. simpl.
  unfold step, handle. rewrite handleMatchingConfirm_cases. simpl.
  destruct (lookups_own_gone
              (fun r => if hasId (recordId ra) r then set_isArchived r else r))
    as [Eo Ew].
  - intros x. apply archive_by_key_cases.
  - replace (hasId (recordId ra) rb) with false; [reflexivity|].
    symmetry. apply Z.eqb_neq. congruence.
  - now rewrite hasId_self.
  - change (find (pendingOf a)
              (updateWhere (hasId (recordId ra)) set_isArchived
                 (matchRecord s)) = None) in Eo.
    change (find (pendingWith a)
              (updateWhere (hasId (recordId ra)) set_isArchived
                 (matchRecord s)) = Some rb) in Ew.
    rewrite Eo, Ew. now rewrite rows_archive_both', <- app_assoc.
Qed.

Lemma partner_disconnected_then_confirm :
  socketId ra <> socketId rb ->
  step (step s (Disconnected (socketId rb))) (MatchingConfirm a) =
    mkState
      (updateWhere (hasId (recordId ra)) set_isArchived
         (updateWhere (fun r => String.eqb (socketId r) (socketId rb))
            set_isArchived (matchRecord s)))
      (nextRecordId s) (sessionHistory s)
      (emitted s ++ [other_declined (socketId ra)]) (delayed s).
Proof.
  intros Hsock.
  destruct Hpair as (Ia & Ib & (Ua & Ma & Pa & Aa) & (Ub & Mb & Pb & Ab)).
  unfold step at 2. unfold handle. rewrite handleDisconnected_cases.
  unfold step, handle. rewrite handleMatchingConfirm_cases. simpl.
  destruct (lookups_partner_gone
              (fun r => if String.eqb (socketId r) (socketId rb)
                        then set_isArchived r else r))
    as [Eo Ew].
  - intros x. destruct (String.eqb _ _); auto.
  - apply String.eqb_neq in Hsock. now rewrite Hsock.
  - now rewrite String.eqb_refl.
  - change (find (pendingOf a)
              (updateWhere (fun r => String.eqb (socketId r) (socketId rb))
                 set_isArchived (matchRecord s)) = Some ra) in Eo.
    change (find (pendingWith a)
              (updateWhere (fun r => String.eqb (socketId r) (socketId rb))
                 set_isArchived (matchRecord s)) = None) in Ew.
    now rewrite Eo, Ew.
Qed.

Lemma decline_archives_pair :
  step s (MatchingDecline a) =
    mkState (map (archiveBoth ra rb) (matchRecord s))
      (nextRecordId s) (sessionHistory s)
      (emitted s ++ [other_declined (socketId rb)]
                 ++ [matching_fail (socketId ra)]
                 ++ [matching_fail (socketId rb)])
      (delayed s).
Proof.
  destruct (pair_lookups _ _ _ _ _ Hpair Honly) as (Fa & Fwa & _).
  unfold step, handle.
  now rewrite handleMatchingDecline_cases, Fa, Fwa, rows_archive_both'.
Qed.

(** Once both rows are archived, neither user's lookups find anything. *)
Lemma lookups_pair_gone n sh em d u :
  u = a \/ u = b ->
  find (pendingOf u)
    (matchRecord (mkState (map (archiveBoth ra rb) (matchRecord s)) n sh em d))
  = None /\
  find (pendingWith u)
    (matchRecord (mkState (map (archiveBoth ra rb) (matchRecord s)) n sh em d))
  = None.
Proof.
  intros Hu. simpl. split; apply (pair_gone _ _ _ _ _ Honly).
  - intros x Px. apply pendingOf_spec in Px. destruct Hu; subst; tauto.
  - intros x Hx. unfold archiveBoth. now rewrite Hx.
  - intros x Hx. unfold archiveBoth. now rewrite Hx.
  - intros x Px. apply pendingWith_spec in Px. destruct Hu; subst; tauto.
  - intros x Hx. unfold archiveBoth. now rewrite Hx.
  - intros x Hx. unfold archiveBoth. now rewrite Hx.
Qed.

Lemma decline_is_final u e :
  u = a \/ u = b ->
  e = MatchingConfirm u \/ e = MatchingDecline u ->
  step (step s (MatchingDecline a)) e = step s (MatchingDecline a).
Proof.
  intros Hu He. rewrite decline_archives_pair.
  match goal with
  | |- step (mkState _ ?n ?sh ?em ?d) _ = _ =>
      destruct (lookups_pair_gone n sh em d u Hu) as [Eo Ew]
  end.
  destruct He as [->| ->]; unfold step, handle.
  - now rewrite handleMatchingConfirm_cases, Eo, Ew.
  - now rewrite handleMatchingDecline_cases, Eo, Ew.
Qed.

End PairEnds.

(** * Disconnect *)

Lemma disconnect_twice sock s :
  step (step s (Disconnected sock)) (Disconnected sock)
  = step s (Disconnected sock).
Proof.
  unfold step, handle. rewrite !handleDisconnected_cases.
  unfold with_matchRecord, updateWhere. simpl. rewrite map_map. f_equal.
  apply map_ext. intros r.
  destruct (String.eqb (socketId r) sock) eqn:E; simpl; now rewrite E.
Qed.

Lemma disconnect_commutes sock sock' s :
  step (step s (Disconnected sock)) (Disconnected sock')
  = step (step s (Disconnected sock')) (Disconnected sock).
Proof.
  unfold step, handle. rewrite !handleDisconnected_cases.
  unfold with_matchRecord, updateWhere. simpl. rewrite !map_map. f_equal.
  apply map_ext. intros r.
  destruct (String.eqb (socketId r) sock) eqn:E,
           (String.eqb (socketId r) sock') eqn:E';
    simpl; rewrite ?E, ?E'; reflexivity.
Qed.

Lemma disconnect_archives_socket sock s r' :
  In r' (matchRecord (step s (Disconnected sock))) ->
  socketId r' = sock -> isArchived r' = true.
Proof.
  unfold step, handle. rewrite handleDisconnected_cases. simpl.
  unfold updateWhere. intros Hin Hs.
  apply in_map_iff in Hin as (r & <- & _).
  destruct (String.eqb (socketId r) sock) eqn:E; [reflexivity|].
  apply String.eqb_neq in E. contradiction.
Qed.

(** * A repeated request *)

Lemma find_app_none {A} (p : A -> bool) l l' :
  find p l = None -> find p (l ++ l') = find p l'.
Proof.
  induction l as [|x l IH]; simpl; [reflexivity|].
  destruct (p x); [discriminate|auto].
Qed.

Lemma request_absorbed s env env' userRequest :
  (exists user,
     find (waitingOf (Req.userId userRequest)) (matchRecord s) = Some user)
  \/ existingMatchOf userRequest s = None ->
  step (step s (UserRequest env userRequest)) (UserRequest env' userRequest)
  = step s (UserRequest env userRequest).
Proof.
  intros H.
  destruct (find (waitingOf (Req.userId userRequest)) (matchRecord s))
    as [user|] eqn:E.
  - unfold step at 2 3. unfold handle.
    rewrite (handleUserRequest_present _ _ _ _ E).
    destruct (String.eqb (socketId user) (Req.socketId userRequest)) eqn:Es.
    + unfold step, handle.
      now rewrite (handleUserRequest_present _ _ _ _ E), Es.
    + unfold step, handle.
      rewrite (handleUserRequest_present env' userRequest _
                 (set_socketId (Req.socketId userRequest) user)).
      * simpl. now rewrite String.eqb_refl.
      * simpl. unfold updateWhere. rewrite find_map_stable, E.
        -- simpl. now rewrite hasId_self.
        -- intros x. destruct (hasId _ x); reflexivity.
  - destruct H as [[user H]|H]; [discriminate|].
    unfold step at 2 3. unfold handle.
    rewrite (handleUserRequest_absent _ _ _ E), H, settle_waiting.
    unfold step, handle.
    rewrite (handleUserRequest_present env' userRequest _
               (waitingRow (Req.userId userRequest) (Req.topic userRequest)
                  (Req.difficulty userRequest) (Req.socketId userRequest)
                  (uuidv4 env) (nextRecordId s))).
    + simpl. now rewrite String.eqb_refl.
    + simpl. rewrite (find_app_none _ _ _ E). simpl.
      unfold waitingOf. simpl. now rewrite String.eqb_refl.
Qed.

(** * Scheduled confirm timeouts *)

Lemma carried_refl l : carried l l.
Proof. intros r Hr. exists r. auto using evolves_refl. Qed.

Lemma carried_update l l' p f :
  raises f -> carried l l' -> carried l (updateWhere p f l').
Proof.
  intros Hf H r Hr. destruct (H r Hr) as (x & Hx & Hev).
  exists (if p x then f x else x). split.
  - unfold updateWhere. apply in_map_iff. eauto.
  - destruct (p x); [|exact Hev]. eapply evolves_trans; eauto.
Qed.

Lemma carried_app l l' x : carried l l' -> carried l (l' ++ x).
Proof.
  intros H r Hr. destruct (H r Hr) as (r' & Hr' & Hev).
  exists r'. split; [apply in_or_app; now left|exact Hev].
Qed.

#[local] Hint Resolve carried_refl carried_update carried_app : rows.

Lemma step_carried s e :
  isUserRequest e = false -> carried (matchRecord s) (matchRecord (step s e)).
Proof.
  destruct e as [env userRequest|u|u|u sock|id|sock]; [discriminate|..];
    intros _; unfold step, handle.
  - rewrite handleMatchingConfirm_cases.
    destruct (find (pendingWith u) _) as [m|], (find (pendingOf u) _) as [x|];
      simpl; auto with rows.
    destruct (isConfirmed x); auto with rows.
    destruct (isConfirmed m); simpl; auto 6 with rows.
  - rewrite handleMatchingDecline_cases.
    destruct (find (pendingWith u) _) as [m|], (find (pendingOf u) _) as [x|];
      simpl; auto 6 with rows.
  - rewrite handleTimeout_cases.
    destruct (find _ _) as [x|]; simpl; auto with rows.
  - rewrite handleConfirmTimeout_cases.
    destruct (find _ _) as [x|]; auto with rows.
    destruct (isArchived x); simpl; auto with rows.
  - rewrite handleDisconnected_cases. simpl. auto with rows.
Qed.

Lemma delayedInv_carried s s' d :
  carried (matchRecord s) (matchRecord s') ->
  delayedInv s d -> delayedInv s' d.
Proof.
  intros Hc (Ht & Hd & r & Hr & Hid & Hm). repeat split; auto.
  destruct (Hc r Hr) as (r' & Hr' & [(Eid & _) (Hk & _)]).
  exists r'. repeat split; auto. congruence.
Qed.

Lemma step_delayedInv s e :
  wellFormed s ->
  (forall d, In d (delayed s) -> delayedInv s d) ->
  forall d, In d (delayed (step s e)) -> delayedInv (step s e) d.
Proof.
  intros [Hids _] Hs d.
  destruct (isUserRequest e) eqn:He.
  - destruct e as [env userRequest| | | | |]; try discriminate.
    unfold step, handle.
    destruct (find (waitingOf (Req.userId userRequest)) (matchRecord s))
      as [user|] eqn:E.
    + rewrite (handleUserRequest_present _ _ _ _ E).
      destruct (String.eqb _ _); [now auto|]. simpl. intros Hd.
      eapply delayedInv_carried; [|now apply Hs]. simpl. auto with rows.
    + rewrite (handleUserRequest_absent _ _ _ E).
      destruct (existingMatchOf userRequest s) as [c|] eqn:Ec.
      * destruct (existingMatchOf_candidate _ _ _ Ec) as (Ic & _ & Mc & _).
        destruct (fetchRandomQuestion env (Req.difficulty userRequest)
                    (Req.topic userRequest)) as [q|] eqn:Q.
        -- rewrite (settle_paired _ _ _ _ _ Q). simpl. intros Hd.
           apply in_app_or in Hd as [Hd|[<-|[<-|[]]]].
           ++ eapply delayedInv_carried; [|now apply Hs].
              simpl. auto with rows.
           ++ repeat split. eexists. split.
              ** simpl. apply in_or_app. right. now left.
              ** split; reflexivity.
           ++ repeat split.
              exists (set_matched (Req.userId userRequest) c). split.
              ** simpl. apply in_or_app. left.
                 apply updateWhere_In; auto using hasId_self.
              ** split; reflexivity.
        -- rewrite (settle_no_question _ _ _ _ Q). simpl. intros Hd.
           destruct (Hs d Hd) as (Ht & Hdl & r & Hr & Hid & Hm).
           repeat split; auto. exists r. simpl. repeat split; auto.
           apply filter_In. split; [exact Hr|].
           apply negb_true_iff, Z.eqb_neq. intros Ek.
           rewrite (key_determines_row _ _ _ Hids Hr Ic Ek) in Hm. congruence.
      * rewrite settle_waiting. simpl. intros Hd.
        eapply delayedInv_carried; [|now apply Hs]. simpl. auto with rows.
  - destruct (step_flagsOnly s e He) as (_ & _ & Ed). rewrite Ed. intros Hd.
    eapply delayedInv_carried; [|now apply Hs]. now apply step_carried.
Qed.

Lemma reachable_delayedInv s :
  reachable s -> forall d, In d (delayed s) -> delayedInv s d.
Proof.
  induction 1 as [|s e Hs IH].
  - simpl. contradiction.
  - apply step_delayedInv; auto using reachable_wellFormed.
Qed.

(** * The session service *)

Lemma mapSession_cases sv r :
  (exists title username,
     SessionService.lookedUp sv r title username /\
     SessionService.mapSessionResponseToSessionData sv r =
       SessionService.Resolved
         (SessionService.SessionData.mk
            (SessionService.SessionResponse.roomNumber r)
            (SessionService.SessionResponse.questionId r)
            (SessionService.orElse title "Deleted question")
            (SessionService.SessionResponse.otherUserId r)
            (SessionService.orElse username "Deleted user")
            (SessionService.SessionResponse.isOngoing r)
            (SessionService.SessionResponse.submission r)))
  \/
  ((forall title username, ~ SessionService.lookedUp sv r title username) /\
   SessionService.mapSessionResponseToSessionData sv r =
     SessionService.Resolved
       (SessionService.SessionData.mk
          (SessionService.SessionResponse.roomNumber r)
          (SessionService.SessionResponse.questionId r)
          "Error fetching question"
          (SessionService.SessionResponse.otherUserId r)
          "Error fetching user"
          (SessionService.SessionResponse.isOngoing r)
          (SessionService.SessionResponse.submission r))).
Proof.
  unfold SessionService.mapSessionResponseToSessionData,
    SessionService.tryMap, SessionService.lookedUp, SessionService.andThen.
  destruct (SessionService.getQuestion sv _) as [title|] eqn:Q.
  - destruct (SessionService.getUser sv _) as [[username|]|] eqn:U.
    + left. exists title, username. auto.
    + right. split; [|reflexivity]. intros t u [_ H]. discriminate.
    + right. split; [|reflexivity]. intros t u [_ H]. discriminate.
  - right. split; [|reflexivity]. intros t u [H _]. discriminate.
Qed.

Lemma mapSession_resolves sv r :
  exists d, SessionService.mapSessionResponseToSessionData sv r
            = SessionService.Resolved d /\ SessionService.shows r d.
Proof.
  destruct (mapSession_cases sv r) as [(t & u & _ & E)|[_ E]];
    rewrite E; eexists; split; try reflexivity;
    unfold SessionService.shows; simpl; tauto.
Qed.

Lemma promiseAll_resolves sv sessions :
  exists ds,
    SessionService.promiseAll
      (map (SessionService.mapSessionResponseToSessionData sv) sessions)
    = SessionService.Resolved ds /\
    Forall2 SessionService.shows sessions ds.
Proof.
  induction sessions as [|r l (ds & E & H)]; simpl.
  - exists []. split; [reflexivity|constructor].
  - destruct (mapSession_resolves sv r) as (d & Ed & Hd).
    exists (d :: ds). rewrite Ed, E. simpl. split; [reflexivity|].
    now constructor.
Qed.

(** * Properties of the handlers beyond the pairing protocol *)

(** X1: whatever the event, every row of the resulting table is either the
    one row [handleUserRequest] has just created (under the next key, for
    the requester and her socket, neither confirmed nor archived) or stems
    from a row of the old table with the same [recordId], [userId],
    [topic], [difficulty], [roomNumber] and [questionId] and with no flag
    cleared: [matched], [isPending], [isConfirmed] and [isArchived] are only
    ever set. *)
Theorem rows_keep_identity_and_flags
    (s : State) (e : Event) (r' : MatchRecord) :
  In r' (matchRecord (step s e)) ->
  (exists r, In r (matchRecord s) /\ evolves r r') \/
  (exists env userRequest,
     e = UserRequest env userRequest /\
     recordId r' = nextRecordId s /\
     userId r' = Req.userId userRequest /\
     topic r' = Req.topic userRequest /\
     difficulty r' = Req.difficulty userRequest /\
     socketId r' = Req.socketId userRequest /\
     roomNumber r' = uuidv4 env /\
     isConfirmed r' = false /\ isArchived r' = false).
Proof.
  intros Hin. destruct (isUserRequest e) eqn:He.
  - destruct e as [env userRequest| | | | |]; try discriminate.
    destruct (request_rows s env userRequest r' Hin) as [H|H]; [now left|].
    right. exists env, userRequest. auto.
  - left. now apply (step_stemFrom s e He).
Qed.

Lemma rows_keep_identity_and_flags_witness :
  (exists r, In r (matchRecord Scenario.waitingA) /\
             evolves r Cases.rowA) \/
  (exists env userRequest,
     UserRequest Scenario.env2 Scenario.requestB = UserRequest env userRequest /\
     recordId Cases.rowA = nextRecordId Scenario.waitingA /\
     userId Cases.rowA = Req.userId userRequest /\
     topic Cases.rowA = Req.topic userRequest /\
     difficulty Cases.rowA = Req.difficulty userRequest /\
     socketId Cases.rowA = Req.socketId userRequest /\
     roomNumber Cases.rowA = uuidv4 env /\
     isConfirmed Cases.rowA = false /\ isArchived Cases.rowA = false).
Proof.
  apply (rows_keep_identity_and_flags Scenario.waitingA
           (UserRequest Scenario.env2 Scenario.requestB) Cases.rowA).
  simpl. now left.
Defined.

(** X2: a confirm, a decline, a request timeout, a confirm timeout and a
    disconnect neither add nor remove rows: the rows of the resulting table
    are, one for one, the rows of the old table with every column as it was
    except [isConfirmed] and [isArchived], which may have been set but are
    never cleared.  The correspondence is up to the order of the rows, which
    the property does not depend on.  The key counter and the delayed
    messages are untouched. *)
Theorem other_events_set_flags_only (s : State) (e : Event) :
  isUserRequest e = false ->
  (exists l', Permutation (matchRecord (step s e)) l' /\
              Forall2 flagsOnly (matchRecord s) l') /\
  nextRecordId (step s e) = nextRecordId s /\
  delayed (step s e) = delayed s.
Proof.
  intros He. destruct (step_flagsOnly s e He) as (Hrows & Hn & Hd).
  split; [|now split]. exists (matchRecord (step s e)).
  split; [apply Permutation_refl|exact Hrows].
Qed.

Lemma other_events_set_flags_only_witness :
  (exists l',
     Permutation (matchRecord (step Scenario.pairedAB (MatchingDecline "A"))) l'
     /\ Forall2 flagsOnly (matchRecord Scenario.pairedAB) l') /\
  nextRecordId (step Scenario.pairedAB (MatchingDecline "A"))
  = nextRecordId Scenario.pairedAB /\
  delayed (step Scenario.pairedAB (MatchingDecline "A"))
  = delayed Scenario.pairedAB.
Proof.
  apply (other_events_set_flags_only Scenario.pairedAB (MatchingDecline "A")).
  reflexivity.
Defined.

(** X3: in every reachable state every row has [matched = isPending]; a
    confirmed row is pending; a row with [matched = false] has neither a
    [matchedUserId] nor a [questionId]; and a matched row names a
    counterpart other than its own user. *)
Theorem reachable_rows_consistent (s : State) (r : MatchRecord) :
  reachable s -> In r (matchRecord s) ->
  matched r = isPending r /\
  (isConfirmed r = true -> isPending r = true) /\
  (matched r = false -> matchedUserId r = None /\ questionId r = None) /\
  (matched r = true -> exists v, matchedUserId r = Some v /\ v <> userId r).
Proof.
  intros Hs Hr. pose proof (reachable_rowInv s Hs) as H.
  rewrite Forall_forall in H. exact (H r Hr).
Qed.

Lemma reachable_rows_consistent_witness :
  matched Cases.rowA = isPending Cases.rowA /\
  (isConfirmed Cases.rowA = true -> isPending Cases.rowA = true) /\
  (matched Cases.rowA = false ->
   matchedUserId Cases.rowA = None /\ questionId Cases.rowA = None) /\
  (matched Cases.rowA = true ->
   exists v, matchedUserId Cases.rowA = Some v /\ v <> userId Cases.rowA).
Proof.
  apply (reachable_rows_consistent Scenario.pairedAB Cases.rowA).
  - apply (reachable_runEvents
             [UserRequest Scenario.env1 Scenario.requestA;
              UserRequest Scenario.env2 Scenario.requestB]
             initialState reachable_init).
  - simpl. now left.
Defined.

(** X4: in a reachable state the row [handleTimeout] finds always has
    [matched = false], so a request timeout that finds a row always sends
    [timeout] to the socket: the test on [matched] never holds the
    notification back. *)
Theorem timeout_found_always_notifies
    (s : State) (u sock : string) (result : MatchRecord) :
  reachable s ->
  find (waitingOn u sock) (matchRecord s) = Some result ->
  matched result = false /\
  emitted (step s (Timeout u sock)) = emitted s ++ [timeout sock].
Proof.
  intros Hs E.
  assert (Hm : matched result = false).
  { pose proof (find_some _ _ E) as [Hr Pr].
    apply waitingOn_spec in Pr as (_ & _ & Pp & _).
    pose proof (reachable_rowInv s Hs) as H. rewrite Forall_forall in H.
    destruct (H result Hr) as (Hmp & _). congruence. }
  split; [exact Hm|].
  unfold step, handle. now rewrite handleTimeout_cases, E, Hm.
Qed.

Lemma timeout_found_always_notifies_witness :
  matched (waitingRow "A" "arrays" "easy" "socket-a" "room-1" 1) = false /\
  emitted (step Scenario.waitingA (Timeout "A" "socket-a"))
  = emitted Scenario.waitingA ++ [timeout "socket-a"].
Proof.
  apply (timeout_found_always_notifies Scenario.waitingA "A" "socket-a").
  - apply (reachable_runEvents [UserRequest Scenario.env1 Scenario.requestA]
             initialState reachable_init).
  - reflexivity.
Defined.

(** X5: in a reachable state a request timeout delivered twice acts once:
    the second run finds no row, changes nothing and emits nothing. *)
Theorem timeout_twice_is_once (s : State) (u sock : string) :
  reachable s ->
  step (step s (Timeout u sock)) (Timeout u sock) = step s (Timeout u sock).
Proof.
  intros Hs. apply timeout_twice. now apply reachable_one_waiting.
Qed.

Lemma timeout_twice_is_once_witness :
  step (step Scenario.waitingA (Timeout "A" "socket-a"))
    (Timeout "A" "socket-a")
  = step Scenario.waitingA (Timeout "A" "socket-a").
Proof.
  apply (timeout_twice_is_once Scenario.waitingA "A" "socket-a").
  apply (reachable_runEvents [UserRequest Scenario.env1 Scenario.requestA]
           initialState reachable_init).
Defined.

(** X6: the session history is written by [handleMatchingConfirm] alone,
    one row at a time, and only when the caller's pending row was not yet
    confirmed and the counterpart's pending row already was; every other
    event, and every other confirm, leaves the session history as it is. *)
Theorem session_written_only_by_second_confirm (s : State) (e : Event) :
  sessionHistory (step s e) = sessionHistory s \/
  exists u userRecord matchedRecord,
    e = MatchingConfirm u /\
    find (pendingOf u) (matchRecord s) = Some userRecord /\
    find (pendingWith u) (matchRecord s) = Some matchedRecord /\
    isConfirmed userRecord = false /\ isConfirmed matchedRecord = true /\
    sessionHistory (step s e)
    = sessionHistory s ++ [sessionOf userRecord matchedRecord].
Proof. apply session_written_by_confirm. Qed.

(** X7: in every reachable state every session row is ongoing and is
    between two different users. *)
Theorem sessions_join_two_users (s : State) (h : SessionHistory.t) :
  reachable s -> In h (sessionHistory s) ->
  SessionHistory.userOneId h <> SessionHistory.userTwoId h /\
  SessionHistory.isOngoing h = true.
Proof.
  intros Hs Hh. pose proof (reachable_sessionInv s Hs) as H.
  rewrite Forall_forall in H. exact (H h Hh).
Qed.

Lemma sessions_join_two_users_witness :
  SessionHistory.userOneId (SessionHistory.mk "room-1" 7 true "B" "A")
  <> SessionHistory.userTwoId (SessionHistory.mk "room-1" 7 true "B" "A") /\
  SessionHistory.isOngoing (SessionHistory.mk "room-1" 7 true "B" "A") = true.
Proof.
  apply (sessions_join_two_users Cases.sessionAB).
  - apply (reachable_runEvents
             [UserRequest Scenario.env1 Scenario.requestA;
              UserRequest Scenario.env2 Scenario.requestB;
              MatchingConfirm "A"; MatchingConfirm "B"]
             initialState reachable_init).
  - simpl. now left.
Defined.

(** X8: when A and B hold the only pending rows that belong to or name
    them, a decline of A archives both rows and nothing else, sends
    [other_declined] to B and [matching_fail] to both, and writes no
    session; after it, a confirm or a decline of either user finds no row
    and leaves the state as it is. *)
Theorem decline_ends_the_pairing
    (s : State) (a b : string) (ra rb : MatchRecord) :
  uniqueIds s ->
  pendingPair s a b ra rb ->
  onlyPair s a b ra rb ->
  a <> b ->
  step s (MatchingDecline a) =
    mkState (map (archiveBoth ra rb) (matchRecord s))
      (nextRecordId s) (sessionHistory s)
      (emitted s ++ [other_declined (socketId rb)]
                 ++ [matching_fail (socketId ra)]
                 ++ [matching_fail (socketId rb)])
      (delayed s)
  /\
  (forall u e,
     u = a \/ u = b ->
     e = MatchingConfirm u \/ e = MatchingDecline u ->
     step (step s (MatchingDecline a)) e = step s (MatchingDecline a)).
Proof.
  intros Hids Hpair Honly Hab. split.
  - now apply (decline_archives_pair s a b ra rb).
  - intros u e. now apply (decline_is_final s a b ra rb).
Qed.

#[local] Ltac solve_pairedAB :=
  match goal with
  | |- uniqueIds _ => solve_uniqueIds
  | |- pendingPair _ _ _ _ _ => unfold pendingPair; simpl; tauto
  | |- onlyPair _ _ _ _ _ =>
      intros r [<-|[<-|[]]] _ _; simpl; split; intros [H|H];
      solve [reflexivity | discriminate H]
  | |- _ <> _ => discriminate
  end.

Lemma decline_ends_the_pairing_witness :
  step Scenario.pairedAB (MatchingDecline "A") =
    mkState (map (archiveBoth Cases.rowA Cases.rowB)
               (matchRecord Scenario.pairedAB))
      (nextRecordId Scenario.pairedAB) (sessionHistory Scenario.pairedAB)
      (emitted Scenario.pairedAB
         ++ [other_declined (socketId Cases.rowB)]
         ++ [matching_fail (socketId Cases.rowA)]
         ++ [matching_fail (socketId Cases.rowB)])
      (delayed Scenario.pairedAB)
  /\
  (forall u e,
     u = "A" \/ u = "B" ->
     e = MatchingConfirm u \/ e = MatchingDecline u ->
     step (step Scenario.pairedAB (MatchingDecline "A")) e
     = step Scenario.pairedAB (MatchingDecline "A")).
Proof.
  apply (decline_ends_the_pairing Scenario.pairedAB "A" "B"
           Cases.rowA Cases.rowB); solve_pairedAB.
Defined.

(** X9: when A and B hold the only pending rows that belong to or name
    them and the confirm timeout of one of the two rows fires, a confirm of
    A afterwards archives the other row as well and sends [other_declined]
    to that row's socket: to A when B's row timed out, and to B when A's own
    row timed out.  No session is written. *)
Theorem confirm_after_confirm_timeout
    (s : State) (a b : string) (ra rb : MatchRecord) :
  uniqueIds s ->
  pendingPair s a b ra rb ->
  onlyPair s a b ra rb ->
  a <> b ->
  step (step s (ConfirmTimeout (recordId rb))) (MatchingConfirm a) =
    mkState (map (archiveBoth ra rb) (matchRecord s))
      (nextRecordId s) (sessionHistory s)
      (emitted s ++ [matching_fail (socketId rb)]
                 ++ [other_declined (socketId ra)])
      (delayed s)
  /\
  step (step s (ConfirmTimeout (recordId ra))) (MatchingConfirm a) =
    mkState (map (archiveBoth ra rb) (matchRecord s))
      (nextRecordId s) (sessionHistory s)
      (emitted s ++ [matching_fail (socketId ra)]
                 ++ [other_declined (socketId rb)])
      (delayed s).
Proof.
  intros Hids Hpair Honly Hab. split.
  - now apply (partner_timed_out_then_confirm s a b ra rb).
  - now apply (own_timed_out_then_confirm s a b ra rb).
Qed.

Lemma confirm_after_confirm_timeout_witness :
  step (step Scenario.pairedAB (ConfirmTimeout (recordId Cases.rowB)))
    (MatchingConfirm "A") =
    mkState (map (archiveBoth Cases.rowA Cases.rowB)
               (matchRecord Scenario.pairedAB))
      (nextRecordId Scenario.pairedAB) (sessionHistory Scenario.pairedAB)
      (emitted Scenario.pairedAB
         ++ [matching_fail (socketId Cases.rowB)]
         ++ [other_declined (socketId Cases.rowA)])
      (delayed Scenario.pairedAB)
  /\
  step (step Scenario.pairedAB (ConfirmTimeout (recordId Cases.rowA)))
    (MatchingConfirm "A") =
    mkState (map (archiveBoth Cases.rowA Cases.rowB)
               (matchRecord Scenario.pairedAB))
      (nextRecordId Scenario.pairedAB) (sessionHistory Scenario.pairedAB)
      (emitted Scenario.pairedAB
         ++ [matching_fail (socketId Cases.rowA)]
         ++ [other_declined (socketId Cases.rowB)])
      (delayed Scenario.pairedAB).
Proof.
  apply (confirm_after_confirm_timeout Scenario.pairedAB "A" "B"
           Cases.rowA Cases.rowB); solve_pairedAB.
Defined.

(** X10: when A and B hold the only pending rows that belong to or name
    them, on different sockets, and B's socket disconnects, a confirm of A
    afterwards archives A's row and sends A [other_declined]; the
    disconnect itself emitted nothing, and no session is written. *)
Theorem confirm_after_partner_disconnect
    (s : State) (a b : string) (ra rb : MatchRecord) :
  uniqueIds s ->
  pendingPair s a b ra rb ->
  onlyPair s a b ra rb ->
  a <> b ->
  socketId ra <> socketId rb ->
  step (step s (Disconnected (socketId rb))) (MatchingConfirm a) =
    mkState
      (updateWhere (hasId (recordId ra)) set_isArchived
         (updateWhere (fun r => String.eqb (socketId r) (socketId rb))
            set_isArchived (matchRecord s)))
      (nextRecordId s) (sessionHistory s)
      (emitted s ++ [other_declined (socketId ra)]) (delayed s).
Proof.
  intros Hids Hpair Honly Hab Hsock.
  now apply (partner_disconnected_then_confirm s a b ra rb).
Qed.

Lemma confirm_after_partner_disconnect_witness :
  step (step Scenario.pairedAB (Disconnected (socketId Cases.rowB)))
    (MatchingConfirm "A") =
    mkState
      (updateWhere (hasId (recordId Cases.rowA)) set_isArchived
         (updateWhere
            (fun r => String.eqb (socketId r) (socketId Cases.rowB))
            set_isArchived (matchRecord Scenario.pairedAB)))
      (nextRecordId Scenario.pairedAB) (sessionHistory Scenario.pairedAB)
      (emitted Scenario.pairedAB ++ [other_declined (socketId Cases.rowA)])
      (delayed Scenario.pairedAB).
Proof.
  apply (confirm_after_partner_disconnect Scenario.pairedAB "A" "B"
           Cases.rowA Cases.rowB); solve_pairedAB.
Defined.

(** X11: [handleDisconnected] emits nothing, writes no session and
    schedules nothing; afterwards every row on the socket is archived;
    running it twice for a socket is the same as running it once, and the
    disconnects of two sockets can be handled in either order. *)
Theorem disconnect_is_idempotent_and_commutes
    (s : State) (sock sock' : string) :
  emitted (step s (Disconnected sock)) = emitted s /\
  sessionHistory (step s (Disconnected sock)) = sessionHistory s /\
  delayed (step s (Disconnected sock)) = delayed s /\
  (forall r', In r' (matchRecord (step s (Disconnected sock))) ->
              socketId r' = sock -> isArchived r' = true) /\
  step (step s (Disconnected sock)) (Disconnected sock)
  = step s (Disconnected sock) /\
  step (step s (Disconnected sock)) (Disconnected sock')
  = step (step s (Disconnected sock')) (Disconnected sock).
Proof.
  repeat split.
  - apply disconnect_archives_socket.
  - apply disconnect_twice.
  - apply disconnect_commutes.
Qed.

(** X12: a request that was not paired is absorbed when it is repeated:
    when the user already has a waiting row, or has none and the search
    finds no candidate, handling the same request a second time (whatever
    room the second run would draw) leaves the state of the first run as it
    is; no second row is created and nothing is emitted. *)
Theorem repeated_request_is_absorbed
    (s : State) (env env' : Env) (userRequest : Req.t) :
  (exists user,
     find (waitingOf (Req.userId userRequest)) (matchRecord s) = Some user)
  \/ existingMatchOf userRequest s = None ->
  step (step s (UserRequest env userRequest)) (UserRequest env' userRequest)
  = step s (UserRequest env userRequest).
Proof. apply request_absorbed. Qed.

Lemma repeated_request_is_absorbed_witness :
  step (step initialState (UserRequest Scenario.env1 Scenario.requestA))
    (UserRequest Scenario.env2 Scenario.requestA)
  = step initialState (UserRequest Scenario.env1 Scenario.requestA).
Proof.
  apply (repeated_request_is_absorbed initialState Scenario.env1 Scenario.env2
           Scenario.requestA).
  right. reflexivity.
Defined.

(** X13: in every reachable state every delayed message of type
    [confirm_timeout] that the handlers have scheduled is due after
    [CONFIRM_DELAY_TIME] and carries the key of a row that is in the table
    and has [matched = true]: the lookup of [handleConfirmTimeout] for a
    scheduled key never misses.  (The request timeouts of
    [handleMatchingRequest] are messages of another type.) *)
Theorem scheduled_timeouts_name_matched_rows (s : State) (d : Delayed) :
  reachable s -> In d (delayed s) ->
  delayedType d = "confirm_timeout" ->
  delay d = CONFIRM_DELAY_TIME /\
  (exists r, In r (matchRecord s) /\ recordId r = delayedRecordId d /\
             matched r = true) /\
  find (hasId (delayedRecordId d)) (matchRecord s) <> None.
Proof.
  intros Hs Hd _.
  destruct (reachable_delayedInv s Hs d Hd) as (Ht & Hdl & r & Hr & Hid & Hm).
  repeat split; eauto.
  intros Hnone. pose proof (find_none _ _ Hnone r Hr) as H.
  unfold hasId in H. apply Z.eqb_neq in H. contradiction.
Qed.

Lemma scheduled_timeouts_name_matched_rows_witness :
  delay (mkDelayed 2 "confirm_timeout" 10000) = CONFIRM_DELAY_TIME /\
  (exists r, In r (matchRecord Scenario.pairedAB) /\
             recordId r = delayedRecordId (mkDelayed 2 "confirm_timeout" 10000)
             /\ matched r = true) /\
  find (hasId (delayedRecordId (mkDelayed 2 "confirm_timeout" 10000)))
    (matchRecord Scenario.pairedAB) <> None.
Proof.
  apply (scheduled_timeouts_name_matched_rows Scenario.pairedAB).
  - apply (reachable_runEvents
             [UserRequest Scenario.env1 Scenario.requestA;
              UserRequest Scenario.env2 Scenario.requestB]
             initialState reachable_init).
  - simpl. now left.
  - reflexivity.
Defined.

(** X14: [mapSessionResponseToSessionData] never rejects, whatever the
    question and user lookups do, and its result always carries the
    session's room, question id, other user, [isOngoing] and [submission].
    When both lookups resolve and the user lookup gives a user, the title
    and the name are the looked-up ones (or "Deleted question" / "Deleted
    user" when absent); in every other case both are the error texts, also
    when only the user lookup failed. *)
Theorem mapSession_never_rejects
    (sv : SessionService.Services) (r : SessionService.SessionResponse.t) :
  exists d,
    SessionService.mapSessionResponseToSessionData sv r
    = SessionService.Resolved d /\
    SessionService.shows r d /\
    ((exists title username,
        SessionService.lookedUp sv r title username /\
        SessionService.SessionData.questionTitle d
        = SessionService.orElse title "Deleted question" /\
        SessionService.SessionData.otherUserName d
        = SessionService.orElse username "Deleted user")
     \/
     ((forall title username, ~ SessionService.lookedUp sv r title username) /\
      SessionService.SessionData.questionTitle d = "Error fetching question" /\
      SessionService.SessionData.otherUserName d = "Error fetching user")).
Proof.
  destruct (mapSession_cases sv r) as [(t & u & Hl & E)|[Hn E]];
    rewrite E; eexists; (split; [reflexivity|]);
    (split; [unfold SessionService.shows; simpl; tauto|]).
  - left. exists t, u. simpl. auto.
  - right. simpl. auto.
Qed.

(** X15: when the request for the history resolves, [getSessionHistory]
    resolves as well, with one entry per session, in the same order, each
    carrying its session's room, question id, other user, [isOngoing] and
    [submission]: a failing question or user lookup never fails the whole
    list.  It rejects only when the request itself rejects. *)
Theorem getSessionHistory_keeps_every_session
    (sv : SessionService.Services) (userId : string) :
  (forall sessions,
     SessionService.getSessions sv userId = SessionService.Resolved sessions ->
     exists ds,
       SessionService.getSessionHistory sv userId = SessionService.Resolved ds
       /\ Forall2 SessionService.shows sessions ds)
  /\
  (SessionService.getSessionHistory sv userId = SessionService.Rejected <->
   SessionService.getSessions sv userId = SessionService.Rejected).
Proof.
  unfold SessionService.getSessionHistory. split.
  - intros sessions E. rewrite E. simpl. apply promiseAll_resolves.
  - destruct (SessionService.getSessions sv userId) as [sessions|]; simpl.
    + destruct (promiseAll_resolves sv sessions) as (ds & E & _).
      rewrite E. split; discriminate.
    + tauto.
Qed.

Example getSessionHistory_with_failing_lookups :
  SessionService.getSessionHistory Cases.services "A" =
    SessionService.Resolved
      [SessionService.SessionData.mk "room-2" 7 "Two Sum" "B" "bob"
         (Some true) None;
       SessionService.SessionData.mk "room-9" 8 "Error fetching question" "C"
         "Error fetching user" None None].
Proof. reflexivity. Qed.

(** * Rows over whole runs *)

Lemma nextRecordId_step_le s e : nextRecordId s <= nextRecordId (step s e).
Proof.
  destruct (isUserRequest e) eqn:He.
  - destruct e as [env userRequest| | | | |]; try discriminate.
    unfold step, handle.
    destruct (find (waitingOf (Req.userId userRequest)) (matchRecord s))
      as [user|] eqn:E.
    + rewrite (handleUserRequest_present _ _ _ _ E).
      destruct (String.eqb _ _); simpl; lia.
    + rewrite (handleUserRequest_absent _ _ _ E).
      destruct (existingMatchOf userRequest s) as [c|].
      * destruct (fetchRandomQuestion env (Req.difficulty userRequest)
                    (Req.topic userRequest)) as [q|] eqn:Q.
        -- rewrite (settle_paired _ _ _ _ _ Q). simpl. lia.
        -- rewrite (settle_no_question _ _ _ _ Q). simpl. lia.
      * rewrite settle_waiting. simpl. lia.
  - destruct (step_flagsOnly s e He) as (_ & -> & _). lia.
Qed.

Lemma runEvents_snoc es e s :
  runEvents (es ++ [e]) s = step (runEvents es s) e.
Proof. unfold runEvents. now rewrite fold_left_app. Qed.

Lemma run_row_by_key s r es :
  wellFormed s -> In r (matchRecord s) ->
  wellFormed (runEvents es s) /\
  nextRecordId s <= nextRecordId (runEvents es s) /\
  forall r', In r' (matchRecord (runEvents es s)) ->
             recordId r' = recordId r -> evolves r r'.
Proof.
  intros Hwf Hr. induction es as [|e es (Hwf' & Hle & IH)] using rev_ind.
  - simpl. split; [exact Hwf|]. split; [lia|].
    intros r' Hr' Hk. destruct Hwf as [Hids _].
    rewrite (key_determines_row _ _ _ Hids Hr' Hr Hk). apply evolves_refl.
  - rewrite runEvents_snoc. split; [now apply step_wellFormed|]. split.
    + pose proof (nextRecordId_step_le (runEvents es s) e). lia.
    + intros r' Hr' Hk.
      destruct Hwf as [_ Hlt]. specialize (Hlt r Hr).
      assert (H : (exists r0, In r0 (matchRecord (runEvents es s)) /\
                              evolves r0 r') \/
                  recordId r' = nextRecordId (runEvents es s)).
      { destruct (isUserRequest e) eqn:He.
        - destruct e as [env userRequest| | | | |]; try discriminate.
          destruct (request_rows _ env userRequest r' Hr')
            as [H1|(H1 & _)]; auto.
        - left. now apply (step_stemFrom _ e He). }
      destruct H as [(r0 & Hr0 & Hev)|Hnew]; [|lia].
      apply (evolves_trans r r0 r'); [|exact Hev].
      apply IH; [exact Hr0|].
      destruct Hev as [(E & _) _]. congruence.
Qed.

(** X16: in a table with a primary key, however many events are handled,
    the row under a given key keeps its [userId], [topic], [difficulty],
    [roomNumber] and [questionId] and never loses a flag.  So a row that is
    matched or archived is never offered as a candidate again: a
    row is paired at most once. *)
Theorem row_is_paired_at_most_once
    (s : State) (r : MatchRecord) (es : list Event) (r' : MatchRecord) :
  wellFormed s ->
  In r (matchRecord s) ->
  In r' (matchRecord (runEvents es s)) ->
  recordId r' = recordId r ->
  evolves r r' /\
  (matched r = true \/ isArchived r = true ->
   forall userRequest, existingMatchOf userRequest (runEvents es s) <> Some r').
Proof.
  intros Hwf Hr Hr' Hk.
  destruct (run_row_by_key s r es Hwf Hr) as (_ & _ & H).
  pose proof (H r' Hr' Hk) as Hev. split; [exact Hev|].
  intros Hflag userRequest E.
  destruct (existingMatchOf_candidate _ _ _ E) as (_ & Ha & Hm & _).
  destruct Hev as [_ (Km & _ & _ & Ka)].
  destruct Hflag as [F|F]; [rewrite (Km F) in Hm|rewrite (Ka F) in Ha];
    discriminate.
Qed.

Lemma row_is_paired_at_most_once_witness :
  evolves Cases.rowA (set_isArchived (set_isConfirmed Cases.rowA)) /\
  (matched Cases.rowA = true \/ isArchived Cases.rowA = true ->
   forall userRequest,
     existingMatchOf userRequest
       (runEvents [MatchingConfirm "A"; MatchingConfirm "B"] Scenario.pairedAB)
     <> Some (set_isArchived (set_isConfirmed Cases.rowA))).
Proof.
  apply (row_is_paired_at_most_once Scenario.pairedAB Cases.rowA
           [MatchingConfirm "A"; MatchingConfirm "B"]
           (set_isArchived (set_isConfirmed Cases.rowA))).
  - split; [solve_uniqueIds|].
    simpl. intros r [<-|[<-|[]]]; reflexivity.
  - simpl. now left.
  - simpl. now left.
  - reflexivity.
Defined.
